(** * WebAuthn ceremonies of allauth.mfa.webauthn

    A shallow embedding of [allauth/mfa/webauthn.py]: the session-scoped
    challenge and ceremony state, the credential repository, the
    registration and authentication ceremonies and the [WebAuthn] record
    wrapper, together with the properties stated about them.

    Python objects are modelled as follows.
    - JSON-like values (the request session's values, the client
      responses, the [data] attribute of an [Authenticator]) are values of
      [json]; Python's [None] is [JNull].
    - [bytes] are lists of [Byte.byte].
    - An exception is a value of [exn]; a call that may raise returns
      [exn + A].
    - Code that reads or writes the ambient request, the database or the
      operating system's entropy runs in the monad [M], a state monad over
      [World] with exceptions: what was written before an exception is
      raised stays written, as in Python.
    - The fido2 library, the adapter and the helpers imported from other
      modules are the fields of [Env]. *)

From Stdlib Require Import ZArith NArith List Lia.
From Stdlib Require Import Strings.Byte Strings.Ascii.
From stdpp Require Import base option list strings gmap.

Open Scope string_scope.
Open Scope list_scope.

(** ** Values *)

Abbreviation bytes := (list byte).

#[local] Unset Elimination Schemes.
Inductive json : Type :=
  | JNull
  | JBool (b : bool)
  | JNum (n : Z)
  | JStr (s : string)
  | JList (l : list json)
  | JDict (items : list (string * json)).
#[local] Set Elimination Schemes.

(** [is not None] *)
Definition is_not_None (v : json) : bool :=
  match v with JNull => false | _ => true end.

(** Lookup in the items of a dict, whose keys are distinct. *)
Fixpoint items_get (items : list (string * json)) (key : string) : option json :=
  match items with
  | [] => None
  | (k, v) :: rest => if decide (k = key) then Some v else items_get rest key
  end.

(** ** Exceptions

    An exception is identified by the class an [except] clause matches it
    against: [binascii.Error] and [UnicodeDecodeError] are [ValueError]s.
    [ValidationError] is Django's, and [OtherError] stands for every other
    class. *)

Inductive exn : Type :=
  | ValidationError (code : string)
  | TypeError
  | ValueError
  | KeyError
  | AttributeError
  | OtherError (name : string).

Global Instance exn_eq_dec : EqDecision exn.
Proof. solve_decision. Defined.

(** [obj.get(key, default)]: only a dict has a [get] attribute. *)
Definition py_get (obj : json) (key : string) (dflt : json) : exn + json :=
  match obj with
  | JDict items => inr (default dflt (items_get items key))
  | _ => inl AttributeError
  end.

(** Modelled from the spec: the adapter's [validation_error(code)] is
    defined in allauth.mfa.adapter; it builds the generic validation error
    that carries [code]. *)
Definition validation_error (code : string) : exn := ValidationError code.

(** ** fido2 and Django objects *)

(** [AttestedCredentialData]: the credential's identifier and public key.
    An instance is a non-empty [bytes] object, hence truthy. *)
Record AttestedCredentialData : Type := {
  aaguid : bytes;
  credential_id : bytes;
  public_key : bytes;
}.

(** [AuthenticatorData] is a subclass of [bytes]: the object is the raw
    bytes it was built from, with the parsed attributes on top. *)
Record AuthenticatorData : Type := {
  ad_bytes : bytes;
  credential_data : option AttestedCredentialData;
}.

Inductive UserVerificationRequirement : Type :=
  | REQUIRED
  | PREFERRED
  | DISCOURAGED.

Record PublicKeyCredentialRpEntity : Type := {
  rp_name : string;
  rp_id : string;
}.

(** [verify_origin] is either absent or the function accepting every
    origin; [verify_any_origin] records which. *)
Record Fido2Server : Type := {
  rp : PublicKeyCredentialRpEntity;
  verify_any_origin : bool;
}.

Record PublicKeyCredentialUserEntity : Type := {
  entity_id : bytes;
  entity_name : string;
  entity_display_name : string;
}.

Record User : Type := {
  user_pk : N;
  username : string;
}.

Inductive AuthenticatorType : Type :=
  | RECOVERY_CODES
  | TOTP
  | WEBAUTHN.

Global Instance AuthenticatorType_eq_dec : EqDecision AuthenticatorType.
Proof. solve_decision. Defined.

(** A row of [Authenticator]; [auth_pk] is [None] until the row is saved. *)
Record Authenticator : Type := {
  auth_pk : option N;
  auth_user : N;
  auth_type : AuthenticatorType;
  auth_data : json;
}.

(** The calls made to the fido2 server, in order. *)
Inductive ServerCall : Type :=
  | RegisterBegin (server : Fido2Server) (user : PublicKeyCredentialUserEntity)
      (credentials : list AttestedCredentialData)
      (user_verification : UserVerificationRequirement) (challenge : bytes)
  | RegisterComplete (server : Fido2Server) (state : json) (response : json)
  | AuthenticateBegin (server : Fido2Server)
      (credentials : list AttestedCredentialData)
      (user_verification : UserVerificationRequirement) (challenge : bytes)
  | AuthenticateComplete (server : Fido2Server) (state : json)
      (credentials : list AttestedCredentialData) (response : json).

(** ** The environment: what the module imports *)

Record Env : Type := {
  (* os.urandom reads the bytes of this tape, one after the other *)
  urandom_tape : nat → byte;
  (* fido2.utils; the decoder is a function of the value it is given, which
     is exact for the immutable values (a str, bytes, None): it is handed
     the session's own object, and a mutable one (a list) it would pad in
     place before it raises *)
  websafe_encode : bytes → string;
  websafe_decode : json → exn + bytes;
  (* base64 *)
  b64encode : bytes → string;
  b64decode : json → exn + bytes;
  (* bytes.decode("utf8") *)
  decode_utf8 : bytes → exn + string;
  (* the parsing done by AuthenticatorData(...) *)
  parse_credential_data : bytes → exn + option AttestedCredentialData;
  (* allauth.account.utils *)
  url_str_to_user_pk : string → exn + N;
  (* the adapter's kwargs and the PublicKeyCredentialUserEntity built from them *)
  get_public_key_credential_user_entity : User → json;
  new_user_entity : json → exn + PublicKeyCredentialUserEntity;
  (* app_settings *)
  WEBAUTHN_ALLOW_INSECURE_ORIGIN : bool;
  (* Fido2Server *)
  register_begin :
    Fido2Server → PublicKeyCredentialUserEntity → list AttestedCredentialData →
    UserVerificationRequirement → bytes → exn + (json * json);
  register_complete : Fido2Server → json → json → exn + AuthenticatorData;
  authenticate_begin :
    Fido2Server → list AttestedCredentialData →
    UserVerificationRequirement → bytes → exn + (json * json);
  authenticate_complete :
    Fido2Server → json → list AttestedCredentialData → json →
    exn + AttestedCredentialData;
  (* RegistrationResponse.from_dict, AuthenticationResponse.from_dict *)
  RegistrationResponse_from_dict : json → exn + json;
  AuthenticationResponse_from_dict : json → exn + json;
}.

(** ** The world: request session, entropy, database, calls made *)

Record World : Type := {
  session : gmap string json;
  urandom_pos : nat;
  authenticators : list Authenticator;
  next_authenticator_pk : N;
  users : list User;
  server_calls : list ServerCall;
}.

Definition set_session (f : gmap string json → gmap string json) (w : World) : World :=
  {| session := f (session w);
     urandom_pos := urandom_pos w;
     authenticators := authenticators w;
     next_authenticator_pk := next_authenticator_pk w;
     users := users w;
     server_calls := server_calls w |}.

Definition advance_urandom (n : nat) (w : World) : World :=
  {| session := session w;
     urandom_pos := urandom_pos w + n;
     authenticators := authenticators w;
     next_authenticator_pk := next_authenticator_pk w;
     users := users w;
     server_calls := server_calls w |}.

Definition log_call (c : ServerCall) (w : World) : World :=
  {| session := session w;
     urandom_pos := urandom_pos w;
     authenticators := authenticators w;
     next_authenticator_pk := next_authenticator_pk w;
     users := users w;
     server_calls := server_calls w ++ [c] |}.

Definition insert_authenticator (a : Authenticator) (w : World) : World :=
  {| session := session w;
     urandom_pos := urandom_pos w;
     authenticators := authenticators w ++ [a];
     next_authenticator_pk := N.succ (next_authenticator_pk w);
     users := users w;
     server_calls := server_calls w |}.

(** ** The monad *)

Definition M (A : Type) : Type := World → (exn + A) * World.

Global Instance M_ret : MRet M := λ A a w, (inr a, w).

Global Instance M_bind : MBind M := λ A B f m w,
  match m w with
  | (inl e, w') => (inl e, w')
  | (inr a, w') => f a w'
  end.

Definition raise {A : Type} (e : exn) : M A := λ w, (inl e, w).

(** A call that may raise but neither reads nor writes the world. *)
Definition call {A : Type} (r : exn + A) : M A := λ w, (r, w).

(** [try: body except classes: raise e'] *)
Definition try_except_raise {A : Type} (body : M A) (classes : list exn) (e' : exn) : M A :=
  λ w, match body w with
       | (inl e, w') => if decide (e ∈ classes) then (inl e', w') else (inl e, w')
       | (inr a, w') => (inr a, w')
       end.

(** Pure calls that may raise are sequenced in [exn + _]. *)
Global Instance exn_ret : MRet (sum exn) := λ A a, inr a.

Global Instance exn_bind : MBind (sum exn) := λ A B f r,
  match r with
  | inl e => inl e
  | inr a => f a
  end.

Global Instance byte_eq_dec : EqDecision byte := Byte.byte_eq_dec.

(** [obj[key]]: [KeyError] on a dict without the key; the other values
    cannot be indexed by a string. *)
Definition py_getitem (obj : json) (key : string) : exn + json :=
  match obj with
  | JDict items =>
      match items_get items key with
      | Some v => inr v
      | None => inl KeyError
      end
  | _ => inl TypeError
  end.

(** ** allauth.mfa.webauthn *)

Definition CHALLENGE_SESSION_KEY : string := "mfa.webauthn.challenge".
Definition STATE_SESSION_KEY : string := "mfa.webauthn.state".

(** The [WebAuthn] wrapper around a row. *)
Record WebAuthn : Type := { instance : Authenticator }.

(** Modelled from the spec: [Authenticator.wrap] is defined in
    allauth.mfa.models; on a row of type "webauthn" it returns the [WebAuthn]
    view of that row. *)
Definition wrap (a : Authenticator) : WebAuthn := {| instance := a |}.

(** [context.request.session.get(key)] *)
Definition session_get (key : string) : M json :=
  λ w, (inr (default JNull (session w !! key)), w).

(** [context.request.session[key] = value] *)
Definition session_setitem (key : string) (value : json) : M unit :=
  λ w, (inr (), set_session (<[key := value]>) w).

(** [context.request.session.pop(key, None)] *)
Definition session_pop (key : string) : M unit :=
  λ w, (inr (), set_session (delete key) w).

(** [Authenticator.objects.filter(user=user, type=type)], in storage order *)
Definition filter_user_type (user : User) (type : AuthenticatorType) :
    M (list Authenticator) :=
  λ w, (inr (filter (λ a, auth_user a = user_pk user ∧ auth_type a = type)
               (authenticators w)), w).

(** [Authenticator.objects.filter(type=type)], in storage order *)
Definition filter_type (type : AuthenticatorType) : M (list Authenticator) :=
  λ w, (inr (filter (λ a, auth_type a = type) (authenticators w)), w).

(** [get_user_model().objects.filter(pk=pk).first()] *)
Definition filter_pk_first (pk : N) : M (option User) :=
  λ w, (inr (head (filter (λ u, user_pk u = pk) (users w))), w).

(** [instance.save()] of a new row: the row gets the next primary key and
    is appended to the table. *)
Definition save (a : Authenticator) : M Authenticator :=
  λ w, let a' := {| auth_pk := Some (next_authenticator_pk w);
                    auth_user := auth_user a;
                    auth_type := auth_type a;
                    auth_data := auth_data a |} in
       (inr a', insert_authenticator a' w).

Section Webauthn.

Context (E : Env).

(** [os.urandom(n)] *)
Definition os_urandom (n : nat) : M bytes :=
  λ w, (inr (urandom_tape E <$> seq (urandom_pos w) n), advance_urandom n w).

(** [AuthenticatorData(data)] *)
Definition new_AuthenticatorData (data : bytes) : exn + AuthenticatorData :=
  cd ← parse_credential_data E data;
  mret {| ad_bytes := data; credential_data := cd |}.

(** The four calls to the server: the call is written to the log and
    answered by the environment. *)
Definition server_register_begin (server : Fido2Server)
    (user : PublicKeyCredentialUserEntity) (credentials : list AttestedCredentialData)
    (user_verification : UserVerificationRequirement) (challenge : bytes) : M (json * json) :=
  λ w, (register_begin E server user credentials user_verification challenge,
        log_call (RegisterBegin server user credentials user_verification challenge) w).

Definition server_register_complete (server : Fido2Server) (state response : json) :
    M AuthenticatorData :=
  λ w, (register_complete E server state response,
        log_call (RegisterComplete server state response) w).

Definition server_authenticate_begin (server : Fido2Server)
    (credentials : list AttestedCredentialData)
    (user_verification : UserVerificationRequirement) (challenge : bytes) : M (json * json) :=
  λ w, (authenticate_begin E server credentials user_verification challenge,
        log_call (AuthenticateBegin server credentials user_verification challenge) w).

Definition server_authenticate_complete (server : Fido2Server) (state : json)
    (credentials : list AttestedCredentialData) (response : json) :
    M AttestedCredentialData :=
  λ w, (authenticate_complete E server state credentials response,
        log_call (AuthenticateComplete server state credentials response) w).

Definition build_user_payload (user : User) : M PublicKeyCredentialUserEntity :=
  let kwargs := get_public_key_credential_user_entity E user in
  call (new_user_entity E kwargs).

Definition generate_challenge : M bytes :=
  challenge ← session_get CHALLENGE_SESSION_KEY;
  if is_not_None challenge then
    call (websafe_decode E challenge)
  else
    challenge ← os_urandom 32;
    session_setitem CHALLENGE_SESSION_KEY (JStr (websafe_encode E challenge));;
    mret challenge.

Definition consume_challenge : M unit := session_pop CHALLENGE_SESSION_KEY.

Definition get_state : M json := session_get STATE_SESSION_KEY.

Definition set_state (state : json) : M unit := session_setitem STATE_SESSION_KEY state.

Definition clear_state : M unit := session_pop STATE_SESSION_KEY.

Definition get_server : M Fido2Server :=
  let rp_id := "localhost" in
  let rp := {| rp_name := "allauth"; rp_id := rp_id |} in
  let verify_origin := if WEBAUTHN_ALLOW_INSECURE_ORIGIN E then true else false in
  mret {| rp := rp; verify_any_origin := verify_origin |}.

Definition parse_registration_response (response : json) : M json :=
  try_except_raise (call (RegistrationResponse_from_dict E response))
    [TypeError] (validation_error "incorrect_code").

(** The [authenticator_data] property of [WebAuthn] *)
Definition authenticator_data (self : WebAuthn) : exn + AuthenticatorData :=
  stored ← py_getitem (auth_data (instance self)) "authenticator_data";
  decoded ← b64decode E stored;
  new_AuthenticatorData decoded.

(** The [name] property of [WebAuthn] *)
Definition name (self : WebAuthn) : exn + json :=
  py_getitem (auth_data (instance self)) "name".

(** The [is_passwordless] property of [WebAuthn] *)
Definition is_passwordless (self : WebAuthn) : exn + json :=
  py_getitem (auth_data (instance self)) "passwordless".

(** [WebAuthn.add] *)
Definition add (user : User) (name : string) (authenticator_data : string)
    (passwordless : bool) : M WebAuthn :=
  let instance :=
    {| auth_pk := None;
       auth_user := user_pk user;
       auth_type := WEBAUTHN;
       auth_data := JDict [("name", JStr name);
                           ("authenticator_data", JStr authenticator_data);
                           ("passwordless", JBool passwordless)] |} in
  instance ← save instance;
  mret {| instance := instance |}.

Definition serialize_authenticator_data (authenticator_data : AuthenticatorData) : string :=
  b64encode E (ad_bytes authenticator_data).

(** The loop of [get_credentials]. The property
    [authenticator.wrap().authenticator_data.credential_data] is read for the
    test and read again for [append]; it is a function of the row, so the
    value appended is the value tested. *)
Fixpoint get_credentials_loop (authenticators : list Authenticator)
    (credentials : list AttestedCredentialData) : exn + list AttestedCredentialData :=
  match authenticators with
  | [] => inr credentials
  | authenticator :: rest =>
      ad ← authenticator_data (wrap authenticator);
      match credential_data ad with
      | Some cd => get_credentials_loop rest (credentials ++ [cd])
      | None => get_credentials_loop rest credentials
      end
  end.

Definition get_credentials (user : User) : M (list AttestedCredentialData) :=
  authenticators ← filter_user_type user WEBAUTHN;
  call (get_credentials_loop authenticators []).

(** The loop of [get_authenticator_by_credential_id]: [credential_data] is
    [None] on a row without attested credential data, and [None] has no
    attribute [credential_id]. *)
Fixpoint get_authenticator_by_credential_id_loop (authenticators : list Authenticator)
    (cred_id : bytes) : exn + option Authenticator :=
  match authenticators with
  | [] => inr None
  | authenticator :: rest =>
      ad ← authenticator_data (wrap authenticator);
      match credential_data ad with
      | None => inl AttributeError
      | Some cd =>
          if decide (cred_id = credential_id cd) then inr (Some authenticator)
          else get_authenticator_by_credential_id_loop rest cred_id
      end
  end.

Definition get_authenticator_by_credential_id (user : User) (cred_id : bytes) :
    M (option Authenticator) :=
  authenticators ← filter_type WEBAUTHN;
  call (get_authenticator_by_credential_id_loop authenticators cred_id).

Definition begin_registration (user : User) : M json :=
  server ← get_server;
  credentials ← get_credentials user;
  payload ← build_user_payload user;
  challenge ← generate_challenge;
  '(registration_data, state) ←
    server_register_begin server payload credentials DISCOURAGED challenge;
  set_state state;;
  mret registration_data.

Definition complete_registration (credential : json) : M AuthenticatorData :=
  server ← get_server;
  state ← get_state;
  binding ← server_register_complete server state credential;
  consume_challenge;;
  clear_state;;
  mret binding.

Definition parse_authentication_response (response : json) : M json :=
  try_except_raise (call (AuthenticationResponse_from_dict E response))
    [TypeError] (validation_error "incorrect_code").

Definition begin_authentication (user : option User) : M json :=
  server ← get_server;
  credentials ← match user with
                | Some u => get_credentials u
                | None => mret []
                end;
  challenge ← generate_challenge;
  '(request_options, state) ←
    server_authenticate_begin server credentials PREFERRED challenge;
  set_state state;;
  mret request_options.

Definition extract_user_from_response (response : json) : M User :=
  user_pk ← try_except_raise
    (inner ← call (py_get response "response" (JDict []));
     user_handle ← call (py_get inner "userHandle" JNull);
     decoded ← call (websafe_decode E user_handle);
     text ← call (decode_utf8 E decoded);
     call (url_str_to_user_pk E text))
    [ValueError; TypeError; KeyError] (validation_error "incorrect_code");
  user ← filter_pk_first user_pk;
  match user with
  | None => raise (validation_error "incorrect_code")
  | Some user => mret user
  end.

Definition complete_authentication (user : option User) (response : json) :
    M (option Authenticator) :=
  user ← match user with
         | None => extract_user_from_response response
         | Some user => mret user
         end;
  credentials ← get_credentials user;
  server ← get_server;
  state ← get_state;
  binding ← try_except_raise
    (server_authenticate_complete server state credentials response)
    [ValueError] (validation_error "incorrect_code");
  consume_challenge;;
  clear_state;;
  get_authenticator_by_credential_id user (credential_id binding).

End Webauthn.

(** ** Base64

    The two codecs the module reaches through [base64] and [fido2.utils]:
    the standard alphabet with padding, and the URL-safe alphabet without
    padding ("websafe"). The decoders are strict: a character outside the
    alphabet is an error. *)

Module Base64.

Definition standard_alphabet : list ascii :=
  String.list_ascii_of_string
    "ABCDEFGHIJKLMNOPQRSTUVWXYZabcdefghijklmnopqrstuvwxyz0123456789+/".

Definition urlsafe_alphabet : list ascii :=
  String.list_ascii_of_string
    "ABCDEFGHIJKLMNOPQRSTUVWXYZabcdefghijklmnopqrstuvwxyz0123456789-_".

Definition sextet_char (alphabet : list ascii) (n : N) : ascii :=
  nth (N.to_nat n) alphabet "A"%char.

Fixpoint char_index (alphabet : list ascii) (c : ascii) : option N :=
  match alphabet with
  | [] => None
  | a :: rest =>
      if decide (a = c) then Some 0%N else N.succ <$> char_index rest c
  end.

(** Three bytes become four groups of six bits; a tail of one or two bytes
    becomes two or three groups. *)
Fixpoint encode_sextets (data : bytes) : list N :=
  match data with
  | [] => []
  | [a] =>
      let x := Byte.to_N a in
      [x / 4; (x mod 4) * 16]%N
  | [a; b] =>
      let x := Byte.to_N a in
      let y := Byte.to_N b in
      [x / 4; (x mod 4) * 16 + y / 16; (y mod 16) * 4]%N
  | a :: b :: c :: rest =>
      let x := Byte.to_N a in
      let y := Byte.to_N b in
      let z := Byte.to_N c in
      [x / 4; (x mod 4) * 16 + y / 16; (y mod 16) * 4 + z / 64; z mod 64]%N
        ++ encode_sextets rest
  end.

Definition byte_of (n : N) : byte := default x00 (Byte.of_N n).

Fixpoint decode_sextets (groups : list N) : option bytes :=
  match groups with
  | [] => Some []
  | [_] => None
  | [p; q] => Some [byte_of (p * 4 + q / 16)]
  | [p; q; r] =>
      Some [byte_of (p * 4 + q / 16); byte_of ((q mod 16) * 16 + r / 4)]
  | p :: q :: r :: s :: rest =>
      tail ← decode_sextets rest;
      Some (byte_of (p * 4 + q / 16)
            :: byte_of ((q mod 16) * 16 + r / 4)
            :: byte_of ((r mod 4) * 64 + s) :: tail)
  end.

Definition encode_with (alphabet : list ascii) (data : bytes) : list ascii :=
  sextet_char alphabet <$> encode_sextets data.

Definition decode_with (alphabet : list ascii) (text : list ascii) : option bytes :=
  groups ← mapM (char_index alphabet) text;
  decode_sextets groups.

(** [fido2.utils.websafe_encode] *)
Definition websafe_encode (data : bytes) : string :=
  String.string_of_list_ascii (encode_with urlsafe_alphabet data).

(** [fido2.utils.websafe_decode]; anything but a string is a [TypeError]
    here. *)
Definition websafe_decode (data : json) : exn + bytes :=
  match data with
  | JStr s =>
      match decode_with urlsafe_alphabet (String.list_ascii_of_string s) with
      | Some b => inr b
      | None => inl ValueError
      end
  | _ => inl TypeError
  end.

Definition padding (n : nat) : list ascii :=
  match n mod 3 with
  | 1 => ["="; "="]%char
  | 2 => ["="]%char
  | _ => []
  end.

(** [base64.b64encode(data).decode("ascii")] *)
Definition b64encode (data : bytes) : string :=
  String.string_of_list_ascii (encode_with standard_alphabet data ++ padding (length data)).

Fixpoint strip_padding (text : list ascii) : list ascii :=
  match text with
  | [] => []
  | c :: rest =>
      if decide (c = "="%char ∧ (rest = [] ∨ rest = ["="%char])) then []
      else c :: strip_padding rest
  end.

(** [base64.b64decode] *)
Definition b64decode (data : json) : exn + bytes :=
  match data with
  | JStr s =>
      let text := String.list_ascii_of_string s in
      if decide (length text mod 4 = 0) then
        match decode_with standard_alphabet (strip_padding text) with
        | Some b => inr b
        | None => inl ValueError
        end
      else inl ValueError
  | _ => inl TypeError
  end.

End Base64.

(** ** A simulated environment

    One instance of [Env], on which the definitions above can be run: the
    two Base64 codecs, an ASCII text decoder, base-36 primary keys, the
    layout of authenticator data up to the credential's public key, and a
    relying-party server that checks the challenge and the credential
    identifier of a response (signatures are left out). *)

Module Sim.

Definition tape (i : nat) : byte := Base64.byte_of ((N.of_nat i * 7 + 3) mod 256).

Fixpoint decode_ascii (data : bytes) : exn + string :=
  match data with
  | [] => inr EmptyString
  | b :: rest =>
      if decide (Byte.to_N b < 128)%N then
        text ← decode_ascii rest;
        inr (String (ascii_of_byte b) text)
      else inl ValueError
  end.

Definition base36_alphabet : list ascii :=
  String.list_ascii_of_string "0123456789abcdefghijklmnopqrstuvwxyz".

Fixpoint base36_digits (text : list ascii) (acc : N) : option N :=
  match text with
  | [] => Some acc
  | c :: rest =>
      d ← Base64.char_index base36_alphabet c;
      base36_digits rest (acc * 36 + d)%N
  end.

(** [base36_to_int] for an integer primary key: [base36_to_int] *)
Definition base36_to_int (s : string) : exn + N :=
  let text := String.list_ascii_of_string s in
  if decide (13 < length text) then inl ValueError
  else
    match text with
    | [] => inl ValueError
    | _ => match base36_digits text 0 with
           | Some n => inr n
           | None => inl ValueError
           end
    end.

(** Authenticator data: 32 bytes of RP id hash, one byte of flags, four of
    counter; when bit 6 of the flags is set, the attested credential data
    follow: 16 bytes of AAGUID, the length of the identifier on two bytes,
    the identifier, the public key. The key is kept as the bytes that
    follow the identifier: its CBOR is not decoded, where fido2 decodes it
    and raises on a key that is cut short. *)
Definition parse_layout (data : bytes) : exn + option AttestedCredentialData :=
  if decide (length data < 37) then inl ValueError
  else if N.testbit (Byte.to_N (nth 32 data x00)) 6 then
    let rest := drop 37 data in
    if decide (length rest < 18) then inl ValueError
    else
      let n := N.to_nat (Byte.to_N (nth 16 rest x00) * 256 + Byte.to_N (nth 17 rest x00)) in
      if decide (length rest < 18 + n) then inl ValueError
      else inr (Some {| aaguid := take 16 rest;
                        credential_id := take n (drop 18 rest);
                        public_key := drop (18 + n) rest |})
  else inr None.

Definition entity_kwargs (user : User) : json :=
  JDict [("id", JStr (username user));
         ("display_name", JStr (username user));
         ("name", JStr (username user))].

Definition ascii_bytes (s : string) : bytes :=
  byte_of_ascii <$> String.list_ascii_of_string s.

Definition entity_of_kwargs (kwargs : json) : exn + PublicKeyCredentialUserEntity :=
  match kwargs with
  | JDict items =>
      match items_get items "id", items_get items "name", items_get items "display_name" with
      | Some (JStr i), Some (JStr n), Some (JStr d) =>
          inr {| entity_id := ascii_bytes i; entity_name := n; entity_display_name := d |}
      | _, _, _ => inl TypeError
      end
  | _ => inl TypeError
  end.

Definition uv_name (uv : UserVerificationRequirement) : string :=
  match uv with
  | REQUIRED => "required"
  | PREFERRED => "preferred"
  | DISCOURAGED => "discouraged"
  end.

Definition descriptor (c : AttestedCredentialData) : json :=
  JDict [("type", JStr "public-key");
         ("id", JStr (Base64.websafe_encode (credential_id c)))].

Definition new_state (uv : UserVerificationRequirement) (challenge : bytes) : json :=
  JDict [("challenge", JStr (Base64.websafe_encode challenge));
         ("user_verification", JStr (uv_name uv))].

Definition rp_register_begin (server : Fido2Server) (user : PublicKeyCredentialUserEntity)
    (credentials : list AttestedCredentialData) (uv : UserVerificationRequirement)
    (challenge : bytes) : exn + (json * json) :=
  inr (JDict [("rp", JDict [("name", JStr (rp_name (rp server)));
                            ("id", JStr (rp_id (rp server)))]);
              ("user", JDict [("name", JStr (entity_name user));
                              ("displayName", JStr (entity_display_name user));
                              ("id", JStr (Base64.websafe_encode (entity_id user)))]);
              ("challenge", JStr (Base64.websafe_encode challenge));
              ("excludeCredentials", JList (descriptor <$> credentials));
              ("userVerification", JStr (uv_name uv))],
       new_state uv challenge).

Definition rp_authenticate_begin (server : Fido2Server)
    (credentials : list AttestedCredentialData) (uv : UserVerificationRequirement)
    (challenge : bytes) : exn + (json * json) :=
  inr (JDict [("rpId", JStr (rp_id (rp server)));
              ("challenge", JStr (Base64.websafe_encode challenge));
              ("allowCredentials", JList (descriptor <$> credentials));
              ("userVerification", JStr (uv_name uv))],
       new_state uv challenge).

(** The challenge answered by the client must be the one of the state. *)
Definition check_challenge (state response : json) : exn + json :=
  expected ← py_getitem state "challenge";
  inner ← py_getitem response "response";
  answered ← py_getitem inner "challenge";
  match expected, answered with
  | JStr e, JStr a => if decide (e = a) then inr inner else inl ValueError
  | _, _ => inl TypeError
  end.

Definition rp_register_complete (server : Fido2Server) (state response : json) :
    exn + AuthenticatorData :=
  inner ← check_challenge state response;
  encoded ← py_getitem inner "authenticatorData";
  data ← Base64.websafe_decode encoded;
  cd ← parse_layout data;
  match cd with
  | Some _ => inr {| ad_bytes := data; credential_data := cd |}
  | None => inl ValueError
  end.

Definition rp_authenticate_complete (server : Fido2Server) (state : json)
    (credentials : list AttestedCredentialData) (response : json) :
    exn + AttestedCredentialData :=
  _ ← check_challenge state response;
  encoded ← py_getitem response "id";
  cred_id ← Base64.websafe_decode encoded;
  match head (filter (λ c, credential_id c = cred_id) credentials) with
  | Some c => inr c
  | None => inl ValueError
  end.

(** An entry of a mapping; one that holds [None] counts as missing. *)
Definition entry (items : list (string * json)) (key : string) : option json :=
  match items_get items key with
  | Some JNull => None
  | v => v
  end.

(** [from_dict] of the two response classes: [None] is mapped to [None],
    anything else that is not a mapping is a [TypeError], and so is a
    mapping without "id" or without "response". A field that is there and
    does not parse is a [ValueError]: an identifier that does not decode,
    a "response" that is not a mapping or lacks a required field of its
    own (here the client's answer and the authenticator data). *)
Definition from_dict (data : json) : exn + json :=
  match data with
  | JNull => inr JNull
  | JDict items =>
      match entry items "id", entry items "response" with
      | Some i, Some r =>
          match Base64.websafe_decode i, r with
          | inr _, JDict inner =>
              match entry inner "challenge", entry inner "authenticatorData" with
              | Some _, Some _ => inr data
              | _, _ => inl ValueError
              end
          | _, _ => inl ValueError
          end
      | _, _ => inl TypeError
      end
  | _ => inl TypeError
  end.

Definition env : Env :=
  {| urandom_tape := tape;
     websafe_encode := Base64.websafe_encode;
     websafe_decode := Base64.websafe_decode;
     b64encode := Base64.b64encode;
     b64decode := Base64.b64decode;
     decode_utf8 := decode_ascii;
     parse_credential_data := parse_layout;
     url_str_to_user_pk := base36_to_int;
     get_public_key_credential_user_entity := entity_kwargs;
     new_user_entity := entity_of_kwargs;
     WEBAUTHN_ALLOW_INSECURE_ORIGIN := false;
     register_begin := rp_register_begin;
     register_complete := rp_register_complete;
     authenticate_begin := rp_authenticate_begin;
     authenticate_complete := rp_authenticate_complete;
     RegistrationResponse_from_dict := from_dict;
     AuthenticationResponse_from_dict := from_dict |}.

(** The same environment with a server that refuses to begin a
    registration. *)
Definition refusing : Env :=
  {| urandom_tape := tape;
     websafe_encode := Base64.websafe_encode;
     websafe_decode := Base64.websafe_decode;
     b64encode := Base64.b64encode;
     b64decode := Base64.b64decode;
     decode_utf8 := decode_ascii;
     parse_credential_data := parse_layout;
     url_str_to_user_pk := base36_to_int;
     get_public_key_credential_user_entity := entity_kwargs;
     new_user_entity := entity_of_kwargs;
     WEBAUTHN_ALLOW_INSECURE_ORIGIN := false;
     register_begin := λ _ _ _ _ _, inl (OtherError "unavailable");
     register_complete := rp_register_complete;
     authenticate_begin := rp_authenticate_begin;
     authenticate_complete := rp_authenticate_complete;
     RegistrationResponse_from_dict := from_dict;
     AuthenticationResponse_from_dict := from_dict |}.

Definition alice : User := {| user_pk := 1; username := "alice" |}.
Definition bob : User := {| user_pk := 2; username := "bob" |}.

(** A public key in COSE form: the CBOR map of an EC2 key (1: 2) for
    ES256 (3: -7) on P-256 (-1: 1), with its two coordinates (-2, -3) of
    32 bytes each. *)
Definition cose_key : bytes :=
  [xa5; x01; x02; x03; x26; x20; x01; x21; x58; x20] ++ replicate 32 x11
    ++ [x22; x58; x20] ++ replicate 32 x22.

(** Authenticator data attesting a credential with the given identifier. *)
Definition attested (cred_id : bytes) : bytes :=
  replicate 32 x00 ++ [x41] ++ replicate 4 x00
    ++ replicate 16 x00 ++ [x00; Base64.byte_of (N.of_nat (length cred_id))]
    ++ cred_id ++ cose_key.

(** Authenticator data without attested credential data. *)
Definition unattested : bytes := replicate 32 x00 ++ [x01] ++ replicate 4 x00.

Definition row (pk : N) (user : User) (data : bytes) : Authenticator :=
  {| auth_pk := Some pk;
     auth_user := user_pk user;
     auth_type := WEBAUTHN;
     auth_data := JDict [("name", JStr "key");
                         ("authenticator_data", JStr (Base64.b64encode data));
                         ("passwordless", JBool false)] |}.

(** A world with the given rows, two users and a fresh session. *)
Definition world (rows : list Authenticator) : World :=
  {| session := ∅;
     urandom_pos := 0;
     authenticators := rows;
     next_authenticator_pk := N.succ (N.of_nat (length rows));
     users := [alice; bob];
     server_calls := [] |}.

(** The response of a client that answers the challenge stored in the
    session of [w], with the credential [cred_id], for the user of primary
    key 1. *)
Definition answer (w : World) (cred_id : bytes) : json :=
  JDict [("id", JStr (Base64.websafe_encode cred_id));
         ("response",
          JDict [("challenge", default JNull (session w !! CHALLENGE_SESSION_KEY));
                 ("authenticatorData", JStr (Base64.websafe_encode (attested cred_id)));
                 ("userHandle", JStr (Base64.websafe_encode [x31]))])].

(** The response of a client that answers another challenge. *)
Definition stale_answer (cred_id : bytes) : json :=
  JDict [("id", JStr (Base64.websafe_encode cred_id));
         ("response",
          JDict [("challenge", JStr "AAAA");
                 ("authenticatorData", JStr (Base64.websafe_encode (attested cred_id)));
                 ("userHandle", JStr (Base64.websafe_encode [x31]))])].

(** Alice has registered the credential c1 01. *)
Definition registered : World := world [row 1 alice (attested [xc1; x01])].

(** ... and has begun a registration, or an authentication. *)
Definition registering : World := (begin_registration env alice registered).2.
Definition authenticating : World := (begin_authentication env (Some alice) registered).2.

End Sim.

(** ** Vocabulary of the statements *)

(** The rows of [user] of type "webauthn", in storage order. *)
Definition webauthn_rows_of (user : User) (rows : list Authenticator) : list Authenticator :=
  filter (λ a, auth_user a = user_pk user ∧ auth_type a = WEBAUTHN) rows.

(** All rows of type "webauthn", in storage order. *)
Definition webauthn_rows (rows : list Authenticator) : list Authenticator :=
  filter (λ a, auth_type a = WEBAUTHN) rows.

(** [credentialsFor], after the specification: fetch the user's records of
    type "webauthn", decode each, and keep the credential data of those
    that have one. A record that does not decode is an error. *)
Definition credentialsFor (E : Env) (user : User) (rows : list Authenticator) :
    exn + list AttestedCredentialData :=
  decoded ← mapM (λ a, authenticator_data E (wrap a)) (webauthn_rows_of user rows);
  mret (omap credential_data decoded).

(** Whether the row decodes to credential data with the identifier [cred_id]. *)
Definition has_credential_id (E : Env) (cred_id : bytes) (a : Authenticator) : bool :=
  match authenticator_data E (wrap a) with
  | inr ad =>
      match credential_data ad with
      | Some cd => bool_decide (cred_id = credential_id cd)
      | None => false
      end
  | inl _ => false
  end.

(** The row decodes and has credential data. *)
Definition attests (E : Env) (a : Authenticator) : Prop :=
  ∃ ad cd, authenticator_data E (wrap a) = inr ad ∧ credential_data ad = Some cd.

(** The server [get_server] builds. *)
Definition the_server (E : Env) : Fido2Server :=
  {| rp := {| rp_name := "allauth"; rp_id := "localhost" |};
     verify_any_origin := WEBAUTHN_ALLOW_INSECURE_ORIGIN E |}.

(** The values stored under the two session keys, [None] when there is
    none. *)
Definition stored_challenge (w : World) : json :=
  default JNull (session w !! CHALLENGE_SESSION_KEY).

Definition stored_state (w : World) : json :=
  default JNull (session w !! STATE_SESSION_KEY).

(** The next [n] bytes of the entropy tape. *)
Definition next_random (E : Env) (w : World) (n : nat) : bytes :=
  urandom_tape E <$> seq (urandom_pos w) n.

(** The world after a challenge was minted and stored. *)
Definition minted (E : Env) (w : World) : World :=
  set_session (<[CHALLENGE_SESSION_KEY := JStr (websafe_encode E (next_random E w 32))]>)
    (advance_urandom 32 w).

(** A challenge is stored that decodes to [challenge]. *)
Definition challenge_pending (E : Env) (challenge : bytes) (w : World) : Prop :=
  is_not_None (stored_challenge w) = true ∧
  websafe_decode E (stored_challenge w) = inr challenge.

(** The world after the challenge and the state were removed. *)
Definition cleared (w : World) : World :=
  set_session (delete STATE_SESSION_KEY) (set_session (delete CHALLENGE_SESSION_KEY) w).

(** What an [except classes] clause that raises [e'] makes of [e]. *)
Definition handled (classes : list exn) (e' e : exn) : exn :=
  if decide (e ∈ classes) then e' else e.

(** The primary key the body of the [try] of [extract_user_from_response]
    computes. *)
Definition user_pk_of_response (E : Env) (response : json) : exn + N :=
  inner ← py_get response "response" (JDict []);
  user_handle ← py_get inner "userHandle" JNull;
  decoded ← websafe_decode E user_handle;
  text ← decode_utf8 E decoded;
  url_str_to_user_pk E text.

(** The calls a run added to the log. *)
Definition calls_made (w w' : World) (calls : list ServerCall) : Prop :=
  server_calls w' = server_calls w ++ calls.

(** A completion call that returns. *)
Inductive completes (E : Env) (w w' : World) : Prop :=
  | completes_registration credential binding :
      complete_registration E credential w = (inr binding, w') →
      completes E w w'
  | completes_authentication user response authenticator :
      complete_authentication E user response w = (inr authenticator, w') →
      completes E w w'.

(** A completion call that raises [e]. *)
Inductive completion_fails (E : Env) (w : World) (e : exn) (w' : World) : Prop :=
  | registration_fails credential :
      complete_registration E credential w = (inl e, w') →
      completion_fails E w e w'
  | authentication_fails user response :
      complete_authentication E user response w = (inl e, w') →
      completion_fails E w e w'.

(** A completion call, whatever it returns or raises. *)
Inductive completion_runs (E : Env) (w w' : World) : Prop :=
  | registration_runs credential result :
      complete_registration E credential w = (result, w') →
      completion_runs E w w'
  | authentication_runs user response result :
      complete_authentication E user response w = (result, w') →
      completion_runs E w w'.

(** The exception the server raises on a completion call, if any. *)
Definition rejection (E : Env) (c : ServerCall) : option exn :=
  match c with
  | RegisterComplete server state response =>
      match register_complete E server state response with
      | inl e => Some e
      | inr _ => None
      end
  | AuthenticateComplete server state credentials response =>
      match authenticate_complete E server state credentials response with
      | inl e => Some e
      | inr _ => None
      end
  | _ => None
  end.

(** The server returns on the completion call [c]: it accepts the
    response. *)
Definition acceptance (E : Env) (c : ServerCall) : Prop :=
  match c with
  | RegisterComplete server state response =>
      ∃ binding, register_complete E server state response = inr binding
  | AuthenticateComplete server state credentials response =>
      ∃ binding, authenticate_complete E server state credentials response = inr binding
  | _ => False
  end.

(** What a begin call may add to the log: nothing when it fails before it
    reaches the server, one call otherwise. *)
Definition begin_calls {A : Type} (expected : ServerCall → Prop) (result : exn + A)
    (calls : list ServerCall) : Prop :=
  match calls with
  | [] => ∃ e, result = inl e
  | [c] => expected c
  | _ => False
  end.

(** A [register_begin] with "discouraged" and the credentials of [user]. *)
Definition registers_discouraged (E : Env) (w : World) (user : User) (c : ServerCall) : Prop :=
  ∃ entity credentials challenge,
    c = RegisterBegin (the_server E) entity credentials DISCOURAGED challenge ∧
    (get_credentials E user w).1 = inr credentials.

(** An [authenticate_begin] with "preferred" and the credentials of
    [user], none when there is no user. *)
Definition authenticates_preferred (E : Env) (w : World) (user : option User)
    (c : ServerCall) : Prop :=
  ∃ credentials challenge,
    c = AuthenticateBegin (the_server E) credentials PREFERRED challenge ∧
    match user with
    | Some u => (get_credentials E u w).1 = inr credentials
    | None => credentials = []
    end.

(** The row [add] stores. *)
Definition added_row (user : User) (name authenticator_data : string) (passwordless : bool)
    (w : World) : Authenticator :=
  {| auth_pk := Some (next_authenticator_pk w);
     auth_user := user_pk user;
     auth_type := WEBAUTHN;
     auth_data := JDict [("name", JStr name);
                         ("authenticator_data", JStr authenticator_data);
                         ("passwordless", JBool passwordless)] |}.

(** *** A statement the code does not satisfy *)

(** A completion the server rejects removes the challenge and the state. *)
Definition cleared_on_rejection : Prop :=
  ∀ E w e w' c,
    completion_fails E w e w' →
    calls_made w w' [c] →
    is_Some (rejection E c) →
    session w' !! CHALLENGE_SESSION_KEY = None ∧ session w' !! STATE_SESSION_KEY = None.

(** *** Vocabulary of the further properties *)

(** The row decodes to the credential data [cd]. *)
Definition holds_credential (E : Env) (cd : AttestedCredentialData) (a : Authenticator) : Prop :=
  ∃ ad, authenticator_data E (wrap a) = inr ad ∧ credential_data ad = Some cd.

(** The reverse lookup passes over the row: the row attests a credential
    with another identifier. *)
Definition passes_over (E : Env) (cred_id : bytes) (a : Authenticator) : Prop :=
  attests E a ∧ has_credential_id E cred_id a = false.

(** The reverse lookup raises [e] on the row: the row does not decode, or
    it has no credential data. *)
Definition stops_at (E : Env) (a : Authenticator) (e : exn) : Prop :=
  authenticator_data E (wrap a) = inl e ∨
  (e = AttributeError ∧
   ∃ ad, authenticator_data E (wrap a) = inr ad ∧ credential_data ad = None).

(** What the reverse lookup answers on [rows]: the first row with the
    identifier, after rows it passes over; [None] when it passes over all
    of them; the exception of the first row it stops at. *)
Definition lookup_outcome (E : Env) (cred_id : bytes) (rows : list Authenticator)
    (r : exn + option Authenticator) : Prop :=
  match r with
  | inr (Some a) =>
      ∃ before after,
        rows = before ++ a :: after ∧
        Forall (passes_over E cred_id) before ∧
        has_credential_id E cred_id a = true
  | inr None => Forall (passes_over E cred_id) rows
  | inl e =>
      ∃ before a after,
        rows = before ++ a :: after ∧
        Forall (passes_over E cred_id) before ∧
        stops_at E a e
  end.

(** The database is the same in both worlds. *)
Definition same_tables (w w' : World) : Prop :=
  authenticators w' = authenticators w ∧
  users w' = users w ∧
  next_authenticator_pk w' = next_authenticator_pk w.

(** The world with another database. *)
Definition with_tables (rows : list Authenticator) (next : N) (accounts : list User)
    (w : World) : World :=
  {| session := session w;
     urandom_pos := urandom_pos w;
     authenticators := rows;
     next_authenticator_pk := next;
     users := accounts;
     server_calls := server_calls w |}.

(** ** Scenarios in the simulated environment *)

Module Scenario.

(** An assertion for Alice's credential that answers a challenge the
    server never issued, and the call it leads to. *)
Definition stale : json := Sim.stale_answer [xc1; x01].

Definition alice_credential : AttestedCredentialData :=
  {| aaguid := replicate 16 x00;
     credential_id := [xc1; x01];
     public_key := Sim.cose_key |}.

Definition stale_call : ServerCall :=
  AuthenticateComplete (the_server Sim.env) (stored_state Sim.authenticating)
    [alice_credential] stale.

Definition rejected : World :=
  (complete_authentication Sim.env (Some Sim.alice) stale Sim.authenticating).2.

(** The attestation of a second credential, c2 02, that answers the
    challenge of the registration Alice has begun. *)
Definition attestation : json := Sim.answer Sim.registering [xc2; x02].

Definition second_credential : AuthenticatorData :=
  {| ad_bytes := Sim.attested [xc2; x02];
     credential_data := Some {| aaguid := replicate 16 x00;
                                credential_id := [xc2; x02];
                                public_key := Sim.cose_key |} |}.

Definition enrolled : World :=
  (complete_registration Sim.env attestation Sim.registering).2.

(** Bob's row has no attested credential data and comes first. *)
Definition unattested_first : World :=
  Sim.world [Sim.row 1 Sim.bob Sim.unattested;
             Sim.row 2 Sim.alice (Sim.attested [xc1; x01])].

(** A response whose identifier is not Base64, one whose "response" is
    empty, and one without identifier. *)
Definition undecodable : json := JDict [("id", JStr "a"); ("response", JDict [])].
Definition hollow : json := JDict [("id", JStr "AQ"); ("response", JDict [])].
Definition incomplete : json := JDict [("response", JDict [])].

(** A response whose "response" entry is a string. *)
Definition ill_typed : json := JDict [("response", JStr "x")].

(** A response whose user handle is the primary key 9, which no user
    has. *)
Definition unknown_handle : json :=
  JDict [("response", JDict [("userHandle", JStr (Base64.websafe_encode [x39]))])].

(** The assertion of Alice's credential that answers the challenge of the
    authentication she has begun. *)
Definition alice_assertion : json := Sim.answer Sim.authenticating [xc1; x01].

(** A session whose stored challenge is not Base64. *)
Definition garbled : World :=
  set_session (<[CHALLENGE_SESSION_KEY := JStr "a"]>) Sim.registered.

(** What a run returned, [None] when it raised. *)
Definition returned (r : exn + json) : json :=
  match r with
  | inr v => v
  | inl _ => JNull
  end.

(** The options of the registration Alice has begun; those of a second
    registration begun after it, and the world it leaves; those of an
    authentication begun after it without a user, and the world it
    leaves. *)
Definition registration_options : json :=
  returned (begin_registration Sim.env Sim.alice Sim.registered).1.

Definition second_options : json :=
  returned (begin_registration Sim.env Sim.alice Sim.registering).1.

Definition registering_again : World :=
  (begin_registration Sim.env Sim.alice Sim.registering).2.

Definition passwordless_options : json :=
  returned (begin_authentication Sim.env None Sim.registering).1.

Definition then_authenticating : World :=
  (begin_authentication Sim.env None Sim.registering).2.

End Scenario.

(** ** Tactics *)

(** Unfolds the monad. *)
Ltac run :=
  unfold mbind, mret, M_bind, M_ret, call, raise, try_except_raise in *; simpl in *.

(** Arithmetic with division and remainder by constants. *)
Ltac divmod := zify; Z.to_euclidean_division_equations; lia.

(** * Properties *)

(** ** Running the monad *)

Lemma bind_run {A B : Type} (m : M A) (f : A → M B) (w : World) :
  (m ≫= f) w = match m w with
               | (inl e, w') => (inl e, w')
               | (inr a, w') => f a w'
               end.
Proof. reflexivity. Qed.

Lemma ret_run {A : Type} (a : A) (w : World) : @mret M M_ret A a w = (inr a, w).
Proof. reflexivity. Qed.


Lemma calls_made_nil (w : World) : calls_made w w [].
Proof. unfold calls_made. rewrite app_nil_r. reflexivity. Qed.

Lemma calls_made_one_inv (w : World) (c c' : ServerCall) :
  calls_made w (log_call c w) [c'] → c' = c.
Proof.
  unfold calls_made. simpl. intros H. apply app_inv_head in H. congruence.
Qed.

(** ** The steps of each operation *)

Section Steps.

Context (E : Env).

Lemma get_server_run (w : World) : get_server E w = (inr (the_server E), w).
Proof.
  unfold get_server, the_server.
  destruct (WEBAUTHN_ALLOW_INSECURE_ORIGIN E); reflexivity.
Qed.

Lemma get_state_run (w : World) : get_state w = (inr (stored_state w), w).
Proof. reflexivity. Qed.

Lemma get_credentials_run (user : User) (w : World) :
  get_credentials E user w
    = (get_credentials_loop E (webauthn_rows_of user (authenticators w)) [], w).
Proof. reflexivity. Qed.

Lemma get_authenticator_by_credential_id_run (user : User) (cred_id : bytes) (w : World) :
  get_authenticator_by_credential_id E user cred_id w
    = (get_authenticator_by_credential_id_loop E (webauthn_rows (authenticators w)) cred_id, w).
Proof. reflexivity. Qed.

Lemma generate_challenge_stored (w : World) :
  is_not_None (stored_challenge w) = true →
  generate_challenge E w = (websafe_decode E (stored_challenge w), w).
Proof.
  intros H. unfold generate_challenge, session_get. run.
  fold (stored_challenge w). rewrite H. reflexivity.
Qed.

Lemma generate_challenge_fresh (w : World) :
  is_not_None (stored_challenge w) = false →
  generate_challenge E w = (inr (next_random E w 32), minted E w).
Proof.
  intros H. unfold generate_challenge, session_get. run.
  fold (stored_challenge w). rewrite H. reflexivity.
Qed.

(** Generating a challenge calls no server. *)
Lemma generate_challenge_calls (w : World) :
  server_calls (generate_challenge E w).2 = server_calls w.
Proof.
  destruct (is_not_None (stored_challenge w)) eqn:H.
  - rewrite generate_challenge_stored by done. reflexivity.
  - rewrite generate_challenge_fresh by done. reflexivity.
Qed.

Lemma extract_user_from_response_run (response : json) (w : World) :
  extract_user_from_response E response w =
    (match user_pk_of_response E response with
     | inl e =>
         inl (handled [ValueError; TypeError; KeyError] (validation_error "incorrect_code") e)
     | inr pk =>
         match head (filter (λ u, user_pk u = pk) (users w)) with
         | Some user => inr user
         | None => inl (validation_error "incorrect_code")
         end
     end, w).
Proof.
  unfold extract_user_from_response, user_pk_of_response, filter_pk_first, handled. run.
  destruct (py_get response _ _) as [e|inner]; simpl.
  { case_decide; reflexivity. }
  destruct (py_get inner _ _) as [e|user_handle]; simpl.
  { case_decide; reflexivity. }
  destruct (websafe_decode E user_handle) as [e|decoded]; simpl.
  { case_decide; reflexivity. }
  destruct (decode_utf8 E decoded) as [e|text]; simpl.
  { case_decide; reflexivity. }
  destruct (url_str_to_user_pk E text) as [e|pk]; simpl.
  { case_decide; reflexivity. }
  destruct (head _); reflexivity.
Qed.

Lemma complete_registration_run (credential : json) (w : World) :
  complete_registration E credential w =
    let c := RegisterComplete (the_server E) (stored_state w) credential in
    match register_complete E (the_server E) (stored_state w) credential with
    | inl e => (inl e, log_call c w)
    | inr binding => (inr binding, cleared (log_call c w))
    end.
Proof.
  unfold complete_registration.
  rewrite bind_run, get_server_run, bind_run, get_state_run, bind_run.
  unfold server_register_complete.
  destruct (register_complete E _ _ _) as [e|binding]; reflexivity.
Qed.

(** [complete_authentication] for a known user. *)
Lemma complete_authentication_known (user : User) (response : json) (w : World) :
  complete_authentication E (Some user) response w =
    match get_credentials_loop E (webauthn_rows_of user (authenticators w)) [] with
    | inl e => (inl e, w)
    | inr credentials =>
        let c := AuthenticateComplete (the_server E) (stored_state w) credentials response in
        match authenticate_complete E (the_server E) (stored_state w) credentials response with
        | inl e =>
            (inl (handled [ValueError] (validation_error "incorrect_code") e), log_call c w)
        | inr binding =>
            (get_authenticator_by_credential_id_loop E
               (webauthn_rows (authenticators w)) (credential_id binding),
             cleared (log_call c w))
        end
    end.
Proof.
  unfold complete_authentication.
  rewrite bind_run, ret_run, bind_run, get_credentials_run.
  destruct (get_credentials_loop E _ _) as [e|credentials]; [reflexivity|].
  rewrite bind_run, get_server_run, bind_run, get_state_run, bind_run.
  unfold try_except_raise, server_authenticate_complete.
  destruct (authenticate_complete E _ _ _ _) as [e|binding]; simpl.
  - unfold handled. case_decide; reflexivity.
  - reflexivity.
Qed.

(** Without a user, the user is the one the response names. *)
Lemma complete_authentication_unknown (response : json) (w : World) :
  complete_authentication E None response w =
    match extract_user_from_response E response w with
    | (inl e, _) => (inl e, w)
    | (inr user, _) => complete_authentication E (Some user) response w
    end.
Proof.
  unfold complete_authentication. rewrite bind_run, extract_user_from_response_run.
  destruct (user_pk_of_response E response) as [e|pk]; [reflexivity|].
  destruct (head _); reflexivity.
Qed.

Lemma begin_registration_run (user : User) (w : World) :
  begin_registration E user w =
    match get_credentials_loop E (webauthn_rows_of user (authenticators w)) [] with
    | inl e => (inl e, w)
    | inr credentials =>
        match new_user_entity E (get_public_key_credential_user_entity E user) with
        | inl e => (inl e, w)
        | inr entity =>
            match generate_challenge E w with
            | (inl e, w1) => (inl e, w1)
            | (inr challenge, w1) =>
                let c := RegisterBegin (the_server E) entity credentials DISCOURAGED challenge in
                match register_begin E (the_server E) entity credentials DISCOURAGED challenge with
                | inl e => (inl e, log_call c w1)
                | inr (data, state) =>
                    (inr data, set_session (<[STATE_SESSION_KEY := state]>) (log_call c w1))
                end
            end
        end
    end.
Proof.
  unfold begin_registration.
  rewrite bind_run, get_server_run, bind_run, get_credentials_run.
  destruct (get_credentials_loop E _ _) as [e|credentials]; [reflexivity|].
  rewrite bind_run. unfold build_user_payload, call.
  destruct (new_user_entity E _) as [e|entity]; [reflexivity|].
  rewrite bind_run.
  destruct (generate_challenge E w) as [[e|challenge] w1]; [reflexivity|].
  rewrite bind_run. unfold server_register_begin.
  destruct (register_begin E _ _ _ _ _) as [e|[data state]]; reflexivity.
Qed.

Lemma begin_authentication_run (user : option User) (w : World) :
  begin_authentication E user w =
    match (match user with
           | Some u => get_credentials_loop E (webauthn_rows_of u (authenticators w)) []
           | None => inr []
           end) with
    | inl e => (inl e, w)
    | inr credentials =>
        match generate_challenge E w with
        | (inl e, w1) => (inl e, w1)
        | (inr challenge, w1) =>
            let c := AuthenticateBegin (the_server E) credentials PREFERRED challenge in
            match authenticate_begin E (the_server E) credentials PREFERRED challenge with
            | inl e => (inl e, log_call c w1)
            | inr (options, state) =>
                (inr options, set_session (<[STATE_SESSION_KEY := state]>) (log_call c w1))
            end
        end
    end.
Proof.
  unfold begin_authentication.
  rewrite bind_run, get_server_run, bind_run.
  assert (Hc : (match user with
                | Some u => get_credentials E u
                | None => mret []
                end) w
               = (match user with
                  | Some u => get_credentials_loop E (webauthn_rows_of u (authenticators w)) []
                  | None => inr []
                  end, w)) by (destruct user; reflexivity).
  rewrite Hc. clear Hc.
  destruct (match user with Some _ => _ | None => _ end) as [e|credentials]; [reflexivity|].
  rewrite bind_run.
  destruct (generate_challenge E w) as [[e|challenge] w1]; [reflexivity|].
  rewrite bind_run. unfold server_authenticate_begin.
  destruct (authenticate_begin E _ _ _ _) as [e|[options state]]; reflexivity.
Qed.

(** The loop of [get_credentials] decodes every row, in order, and keeps
    the credential data it finds. *)
Lemma get_credentials_loop_spec (rows : list Authenticator)
    (credentials : list AttestedCredentialData) :
  get_credentials_loop E rows credentials =
    (decoded ← mapM (λ a, authenticator_data E (wrap a)) rows;
     mret (credentials ++ omap credential_data decoded)).
Proof.
  revert credentials. induction rows as [|a rows IH]; intros credentials.
  - simpl. rewrite app_nil_r. reflexivity.
  - cbn [get_credentials_loop mapM].
    destruct (authenticator_data E (wrap a)) as [e|ad]; [reflexivity|].
    cbn [mbind exn_bind]. destruct (credential_data ad) as [cd|] eqn:Hcd.
    + rewrite IH. destruct (mapM _ rows) as [e|decoded]; [reflexivity|].
      cbn. rewrite Hcd. rewrite <- app_assoc. reflexivity.
    + rewrite IH. destruct (mapM _ rows) as [e|decoded]; [reflexivity|].
      cbn. rewrite Hcd. reflexivity.
Qed.

(** On rows that all attest a credential, the loop of the reverse lookup
    finds the first row with the identifier. *)
Lemma reverse_lookup_loop_find (rows : list Authenticator) (cred_id : bytes) :
  Forall (attests E) rows →
  get_authenticator_by_credential_id_loop E rows cred_id
    = inr (find (has_credential_id E cred_id) rows).
Proof.
  induction 1 as [|a rows (ad & cd & Had & Hcd) _ IH]; [reflexivity|].
  cbn [get_authenticator_by_credential_id_loop find].
  unfold has_credential_id at 1. rewrite Had. cbn [mbind exn_bind]. rewrite Hcd.
  case_decide as Heq.
  - rewrite bool_decide_eq_true_2 by done. reflexivity.
  - rewrite bool_decide_eq_false_2 by done. exact IH.
Qed.

(** A first row without credential data stops the reverse lookup. *)
Lemma reverse_lookup_unattested (user : User) (cred_id : bytes) (w : World)
    (a : Authenticator) (rows : list Authenticator) (ad : AuthenticatorData) :
  webauthn_rows (authenticators w) = a :: rows →
  authenticator_data E (wrap a) = inr ad →
  credential_data ad = None →
  get_authenticator_by_credential_id E user cred_id w = (inl AttributeError, w).
Proof.
  intros Hrows Had Hcd. rewrite get_authenticator_by_credential_id_run, Hrows.
  simpl. rewrite Had. simpl. rewrite Hcd. reflexivity.
Qed.

End Steps.

(** ** The Base64 codecs *)

Lemma bytes_ind3 (P : bytes → Prop) :
  P [] → (∀ a, P [a]) → (∀ a b, P [a; b]) →
  (∀ a b c rest, P rest → P (a :: b :: c :: rest)) →
  ∀ data, P data.
Proof.
  intros H0 H1 H2 H3 data.
  assert (H : P data ∧ (∀ a, P (a :: data)) ∧ (∀ a b, P (a :: b :: data))).
  { induction data as [|x data (IH0 & IH1 & IH2)]; [auto|].
    split; [apply IH1|]. split; [intros a; apply IH2|]. intros a b. apply H3, IH0. }
  apply H.
Qed.

Lemma byte_of_to_N (b : byte) : Base64.byte_of (Byte.to_N b) = b.
Proof. unfold Base64.byte_of. rewrite Byte.of_to_N. reflexivity. Qed.

Lemma to_N_lt (b : byte) : (Byte.to_N b < 256)%N.
Proof. pose proof (Byte.to_N_bounded b). lia. Qed.

Lemma first_byte (x y : N) :
  (y < 256 → x / 4 * 4 + (x mod 4 * 16 + y / 16) / 16 = x)%N.
Proof. intros. divmod. Qed.

Lemma second_byte (x y z : N) :
  (y < 256 → z < 256 →
   (x mod 4 * 16 + y / 16) mod 16 * 16 + (y mod 16 * 4 + z / 64) / 4 = y)%N.
Proof. intros. divmod. Qed.

Lemma third_byte (y z : N) :
  (z < 256 → (y mod 16 * 4 + z / 64) mod 4 * 64 + z mod 64 = z)%N.
Proof. intros. divmod. Qed.

Lemma first_byte_of_one (x : N) : (x / 4 * 4 + (x mod 4 * 16) / 16 = x)%N.
Proof. divmod. Qed.

Lemma second_byte_of_two (x y : N) :
  (y < 256 → (x mod 4 * 16 + y / 16) mod 16 * 16 + (y mod 16 * 4) / 4 = y)%N.
Proof. intros. divmod. Qed.

(** Decoding the groups of six bits gives the bytes back. *)
Lemma decode_encode_sextets (data : bytes) :
  Base64.decode_sextets (Base64.encode_sextets data) = Some data.
Proof.
  induction data as [|a|a b|a b c rest IH] using bytes_ind3.
  - reflexivity.
  - simpl. rewrite first_byte_of_one, byte_of_to_N. reflexivity.
  - simpl. pose proof (to_N_lt b).
    rewrite first_byte, second_byte_of_two, !byte_of_to_N by done. reflexivity.
  - cbn [Base64.encode_sextets app Base64.decode_sextets]. rewrite IH. simpl.
    pose proof (to_N_lt b). pose proof (to_N_lt c).
    rewrite first_byte, second_byte, third_byte, !byte_of_to_N by done. reflexivity.
Qed.

(** Every group is below 64. *)
Lemma encode_sextets_bounded (data : bytes) :
  Forall (λ n, (n < 64)%N) (Base64.encode_sextets data).
Proof.
  induction data as [|a|a b|a b c rest IH] using bytes_ind3.
  - constructor.
  - pose proof (to_N_lt a). simpl. repeat constructor; divmod.
  - pose proof (to_N_lt a). pose proof (to_N_lt b). simpl. repeat constructor; divmod.
  - pose proof (to_N_lt a). pose proof (to_N_lt b). pose proof (to_N_lt c).
    cbn [Base64.encode_sextets app]. repeat (constructor; [divmod|]). exact IH.
Qed.

(** In both alphabets the index of the n-th character is n. *)
Lemma char_index_sextet_char (alphabet : list ascii) (n : N) :
  alphabet = Base64.standard_alphabet ∨ alphabet = Base64.urlsafe_alphabet →
  (n < 64)%N →
  Base64.char_index alphabet (Base64.sextet_char alphabet n) = Some n.
Proof.
  intros Halphabet Hn.
  assert (Hall : forallb (λ i, bool_decide
                   (Base64.char_index alphabet (Base64.sextet_char alphabet (N.of_nat i))
                    = Some (N.of_nat i))) (seq 0 64) = true).
  { destruct Halphabet as [-> | ->]; vm_compute; reflexivity. }
  rewrite forallb_forall in Hall.
  assert (Hin : In (N.to_nat n) (seq 0 64)) by (apply in_seq; lia).
  apply Hall in Hin. rewrite N2Nat.id in Hin.
  apply bool_decide_eq_true in Hin. exact Hin.
Qed.

Lemma decode_with_encode_with (alphabet : list ascii) (data : bytes) :
  alphabet = Base64.standard_alphabet ∨ alphabet = Base64.urlsafe_alphabet →
  Base64.decode_with alphabet (Base64.encode_with alphabet data) = Some data.
Proof.
  intros Halphabet. unfold Base64.decode_with, Base64.encode_with.
  assert (H : mapM (Base64.char_index alphabet)
                (Base64.sextet_char alphabet <$> Base64.encode_sextets data)
              = Some (Base64.encode_sextets data)).
  { pose proof (encode_sextets_bounded data) as Hb.
    induction Hb as [|n groups Hn _ IH]; [reflexivity|].
    rewrite fmap_cons. cbn [mapM]. rewrite char_index_sextet_char by done.
    simpl. rewrite IH. reflexivity. }
  rewrite H. simpl. apply decode_encode_sextets.
Qed.

(** The websafe codec decodes what it encoded. *)
Lemma websafe_decode_encode (data : bytes) :
  Base64.websafe_decode (JStr (Base64.websafe_encode data)) = inr data.
Proof.
  unfold Base64.websafe_decode, Base64.websafe_encode.
  rewrite String.list_ascii_of_string_of_list_ascii.
  rewrite decode_with_encode_with by auto. reflexivity.
Qed.

(** ** Completion and the session *)

(** What a completion call does to the world: nothing when it fails
    before it reaches the server; it logs the call when the server rejects
    the response; it logs the call and removes the challenge and the
    ceremony state when the server accepts it. *)
Lemma completion_runs_cases (E : Env) (w w' : World) :
  completion_runs E w w' →
  w' = w ∨
  (∃ c, is_Some (rejection E c) ∧ w' = log_call c w) ∨
  (∃ c, acceptance E c ∧ w' = cleared (log_call c w)).
Proof.
  intros [credential result H | user response result H].
  - rewrite complete_registration_run in H. cbv zeta in H.
    destruct (register_complete E _ _ _) as [e|binding] eqn:Hv; injection H as _ <-; right.
    + left. eexists. split; [|reflexivity]. simpl. rewrite Hv. eauto.
    + right. eexists. split; [|reflexivity]. simpl. eauto.
  - assert (Hknown : w' = w ∨
              ∃ u, complete_authentication E (Some u) response w = (result, w')).
    { destruct user as [u|]; [eauto|].
      rewrite complete_authentication_unknown, extract_user_from_response_run in H.
      destruct (match user_pk_of_response E response with inl _ => _ | inr _ => _ end)
        as [e0|u]; [|eauto].
      injection H as _ <-. left. reflexivity. }
    destruct Hknown as [Hkept | [u Hu]]; [left; exact Hkept|].
    rewrite complete_authentication_known in Hu.
    destruct (get_credentials_loop E _ _) as [e0|credentials];
      [injection Hu as _ <-; left; reflexivity|].
    cbv zeta in Hu.
    destruct (authenticate_complete E _ _ _ _) as [e0|binding] eqn:Hv;
      injection Hu as _ <-; right.
    + left. eexists. split; [|reflexivity]. simpl. rewrite Hv. eauto.
    + right. eexists. split; [|reflexivity]. simpl. eauto.
Qed.

Lemma acceptance_not_rejected (E : Env) (c : ServerCall) :
  acceptance E c → rejection E c = None.
Proof.
  destruct c; simpl; try done; intros [binding ->]; reflexivity.
Qed.

(** C1, as amended. A [complete_registration] or a
    [complete_authentication], whatever it returns or raises, makes at
    most one call to the server. When it makes none (it failed before the
    server was reached: the user of the response could not be resolved, or
    the credentials could not be read), the session is left as it was.
    When the server rejects the response, the session is left as it was
    too: the challenge and the ceremony state are still stored, with the
    values they had. The two keys are removed only after a verification
    that succeeds: a run that changes the session made one call, the
    server accepted it, and the session is the old one without the two
    keys. *)
Theorem rejected_completion_keeps_session (E : Env) (w w' : World) :
  completion_runs E w w' →
  (calls_made w w' [] ∨ ∃ c, calls_made w w' [c]) ∧
  (calls_made w w' [] → session w' = session w) ∧
  (∀ c, calls_made w w' [c] → is_Some (rejection E c) → session w' = session w) ∧
  (session w' ≠ session w →
   ∃ c, calls_made w w' [c] ∧ acceptance E c ∧ session w' = session (cleared w)).
Proof.
  intros Hrun.
  destruct (completion_runs_cases E w w' Hrun)
    as [-> | [(c & Hc & ->) | (c & Hc & ->)]].
  - split; [left; apply calls_made_nil|]. split; [reflexivity|].
    split; [reflexivity|]. intros H. destruct H. reflexivity.
  - split; [right; exists c; reflexivity|]. split; [reflexivity|].
    split; [reflexivity|]. intros H. destruct H. reflexivity.
  - split; [right; exists c; reflexivity|].
    split; [intros H; unfold calls_made in H; simpl in H;
            apply app_inv_head in H; discriminate|].
    split.
    + intros c' H Hrejected. apply calls_made_one_inv in H. subst c'.
      rewrite (acceptance_not_rejected E c Hc) in Hrejected.
      destruct Hrejected as [? ?]. discriminate.
    + intros _. exists c. split; [reflexivity|]. split; [exact Hc|reflexivity].
Qed.

(** An assertion that answers a stale challenge is rejected, and both keys
    are still in the session. *)
Lemma rejected_completion_keeps_session_witness :
  session Scenario.rejected = session Sim.authenticating ∧
  is_Some (session Scenario.rejected !! CHALLENGE_SESSION_KEY) ∧
  is_Some (session Scenario.rejected !! STATE_SESSION_KEY).
Proof.
  split.
  - assert (Hrun : completion_runs Sim.env Sim.authenticating Scenario.rejected).
    { apply authentication_runs with
        (user := Some Sim.alice) (response := Scenario.stale)
        (result := inl (ValidationError "incorrect_code")).
      vm_compute. reflexivity. }
    destruct (rejected_completion_keeps_session Sim.env Sim.authenticating
                Scenario.rejected Hrun) as (_ & _ & Hrejected & _).
    apply (Hrejected Scenario.stale_call).
    + vm_compute. reflexivity.
    + vm_compute. eauto.
  - vm_compute. eauto.
Defined.

(** C1, as stated, does not hold: after the rejected assertion the
    challenge is still stored. *)
Lemma rejection_keeps_challenge : ¬ cleared_on_rejection.
Proof.
  intros H.
  destruct (H Sim.env Sim.authenticating (ValidationError "incorrect_code")
              Scenario.rejected Scenario.stale_call) as [Hchallenge _].
  - apply authentication_fails with (user := Some Sim.alice) (response := Scenario.stale).
    vm_compute. reflexivity.
  - vm_compute. reflexivity.
  - vm_compute. eauto.
  - vm_compute in Hchallenge. discriminate.
Qed.

(** C2. After a [complete_registration] or a [complete_authentication]
    that returns, the session holds neither the challenge nor the ceremony
    state. *)
Theorem completion_clears_session (E : Env) (w w' : World) :
  completes E w w' →
  session w' !! CHALLENGE_SESSION_KEY = None ∧ session w' !! STATE_SESSION_KEY = None.
Proof.
  assert (Hcleared : ∀ w0 : World,
            session (cleared w0) !! CHALLENGE_SESSION_KEY = None ∧
            session (cleared w0) !! STATE_SESSION_KEY = None).
  { intros w0. simpl. split; [rewrite lookup_delete_ne by done|]; apply lookup_delete_eq. }
  intros [credential binding H | user response authenticator H].
  - rewrite complete_registration_run in H. cbv zeta in H.
    destruct (register_complete E _ _ _); [discriminate|].
    injection H as _ <-. apply Hcleared.
  - assert (Hknown : ∃ u, complete_authentication E (Some u) response w
                          = (inr authenticator, w')).
    { destruct user as [u|]; [eauto|].
      rewrite complete_authentication_unknown in H.
      destruct (extract_user_from_response E response w) as [[e|u] w0];
        [discriminate|eauto]. }
    destruct Hknown as [u Hu]. rewrite complete_authentication_known in Hu.
    destruct (get_credentials_loop E _ _) as [e|credentials]; [discriminate|].
    cbv zeta in Hu.
    destruct (authenticate_complete E _ _ _ _) as [e|binding]; [discriminate|].
    injection Hu as _ <-. apply Hcleared.
Qed.

(** Alice completes the registration she began: both keys were in the
    session, neither is afterwards. *)
Lemma completion_clears_session_witness :
  is_Some (session Sim.registering !! CHALLENGE_SESSION_KEY) ∧
  is_Some (session Sim.registering !! STATE_SESSION_KEY) ∧
  session Scenario.enrolled !! CHALLENGE_SESSION_KEY = None ∧
  session Scenario.enrolled !! STATE_SESSION_KEY = None.
Proof.
  split; [vm_compute; eauto|]. split; [vm_compute; eauto|].
  apply (completion_clears_session Sim.env Sim.registering Scenario.enrolled).
  apply completes_registration with
    (credential := Scenario.attestation) (binding := Scenario.second_credential).
  vm_compute. reflexivity.
Defined.

(** ** The challenge *)

(** C3. When a challenge is stored in the session, [generate_challenge]
    returns its decoding and changes nothing: no byte is drawn, nothing is
    written. When none is stored, it draws the next 32 random bytes, stores
    their encoding under the challenge key and returns them. Hence a second
    call returns the bytes of the first, and changes nothing, as long as
    decoding undoes encoding on them. *)
Theorem generate_challenge_idempotent (E : Env) (w : World) :
  (is_not_None (stored_challenge w) = true →
     generate_challenge E w = (websafe_decode E (stored_challenge w), w)) ∧
  (is_not_None (stored_challenge w) = false →
     generate_challenge E w = (inr (next_random E w 32), minted E w) ∧
     length (next_random E w 32) = 32 ∧
     stored_challenge (minted E w) = JStr (websafe_encode E (next_random E w 32))) ∧
  (∀ challenge w1,
     generate_challenge E w = (inr challenge, w1) →
     websafe_decode E (JStr (websafe_encode E challenge)) = inr challenge →
     generate_challenge E w1 = (inr challenge, w1)).
Proof.
  split; [apply generate_challenge_stored|]. split.
  - intros H. split; [apply generate_challenge_fresh, H|]. split.
    + unfold next_random. rewrite length_fmap. apply length_seq.
    + unfold stored_challenge, minted. simpl. rewrite lookup_insert_eq. reflexivity.
  - intros challenge w1 Hrun Hcodec.
    destruct (is_not_None (stored_challenge w)) eqn:Hs.
    + rewrite generate_challenge_stored in Hrun by done. injection Hrun as Hdecoded <-.
      rewrite generate_challenge_stored by done. rewrite Hdecoded. reflexivity.
    + rewrite generate_challenge_fresh in Hrun by done. injection Hrun as <- <-.
      assert (Hstored : stored_challenge (minted E w)
                        = JStr (websafe_encode E (next_random E w 32))).
      { unfold stored_challenge, minted. simpl. rewrite lookup_insert_eq. reflexivity. }
      rewrite generate_challenge_stored by (rewrite Hstored; reflexivity).
      rewrite Hstored, Hcodec. reflexivity.
Qed.

(** With the websafe codec, the second call returns the 32 bytes the first
    one drew. *)
Lemma generate_challenge_idempotent_witness :
  let first := generate_challenge Sim.env Sim.registered in
  first.1 = inr (next_random Sim.env Sim.registered 32) ∧
  generate_challenge Sim.env first.2 = (inr (next_random Sim.env Sim.registered 32), first.2).
Proof.
  cbv zeta.
  destruct (generate_challenge_idempotent Sim.env Sim.registered) as (_ & Hfresh & Htwice).
  destruct (Hfresh eq_refl) as (Hrun & _ & _).
  split.
  - rewrite Hrun. reflexivity.
  - apply Htwice.
    + rewrite Hrun. reflexivity.
    + apply websafe_decode_encode.
Defined.

(** *** The challenge of two begin calls *)

Lemma generate_challenge_pending (E : Env) (w w1 : World) (challenge : bytes) :
  generate_challenge E w = (inr challenge, w1) →
  websafe_decode E (JStr (websafe_encode E challenge)) = inr challenge →
  challenge_pending E challenge w1.
Proof.
  intros Hrun Hcodec. destruct (is_not_None (stored_challenge w)) eqn:Hs.
  - rewrite generate_challenge_stored in Hrun by done. injection Hrun as Hd <-. by split.
  - rewrite generate_challenge_fresh in Hrun by done. injection Hrun as <- <-.
    assert (Hstored : stored_challenge (minted E w)
                      = JStr (websafe_encode E (next_random E w 32))).
    { unfold stored_challenge, minted. simpl. rewrite lookup_insert_eq. reflexivity. }
    split; rewrite Hstored; [reflexivity|exact Hcodec].
Qed.

Lemma challenge_pending_set_state (E : Env) (challenge : bytes) (w : World) (c : ServerCall)
    (state : json) :
  challenge_pending E challenge w →
  challenge_pending E challenge (set_session (<[STATE_SESSION_KEY := state]>) (log_call c w)).
Proof.
  unfold challenge_pending, stored_challenge. simpl.
  rewrite lookup_insert_ne by done. auto.
Qed.

Lemma generate_challenge_of_pending (E : Env) (challenge : bytes) (w : World) :
  challenge_pending E challenge w → generate_challenge E w = (inr challenge, w).
Proof.
  intros [Hs Hd]. rewrite generate_challenge_stored by done. rewrite Hd. reflexivity.
Qed.

(** After a begin call that returned, a challenge is pending, and the call
    passed it to the server. *)
Lemma begin_registration_pending (E : Env) (user : User) (w w1 : World) (data : json) :
  (∀ b, websafe_decode E (JStr (websafe_encode E b)) = inr b) →
  begin_registration E user w = (inr data, w1) →
  ∃ entity credentials challenge,
    calls_made w w1 [RegisterBegin (the_server E) entity credentials DISCOURAGED challenge] ∧
    challenge_pending E challenge w1.
Proof.
  intros Hcodec. rewrite begin_registration_run.
  destruct (get_credentials_loop E _ _) as [e|credentials]; [discriminate|].
  destruct (new_user_entity E _) as [e|entity]; [discriminate|].
  pose proof (generate_challenge_calls E w) as Hg.
  destruct (generate_challenge E w) as [[e|challenge] w0] eqn:Hrun; [discriminate|].
  cbv zeta. destruct (register_begin E _ _ _ _ _) as [e|[data' state]]; [discriminate|].
  intros [= <- <-]. exists entity, credentials, challenge. split.
  - unfold calls_made. simpl in *. rewrite Hg. reflexivity.
  - apply challenge_pending_set_state. eapply generate_challenge_pending; eauto.
Qed.

Lemma begin_registration_of_pending (E : Env) (user : User) (w w1 : World) (data : json)
    (challenge : bytes) :
  challenge_pending E challenge w →
  begin_registration E user w = (inr data, w1) →
  ∃ entity credentials,
    calls_made w w1 [RegisterBegin (the_server E) entity credentials DISCOURAGED challenge].
Proof.
  intros Hp. rewrite begin_registration_run.
  destruct (get_credentials_loop E _ _) as [e|credentials]; [discriminate|].
  destruct (new_user_entity E _) as [e|entity]; [discriminate|].
  rewrite (generate_challenge_of_pending E challenge w Hp).
  cbv zeta. destruct (register_begin E _ _ _ _ _) as [e|[data' state]]; [discriminate|].
  intros [= <- <-]. exists entity, credentials. reflexivity.
Qed.

(** X11. Two registrations begun one after the other, both returning,
    pass the same challenge to the server, when decoding undoes
    encoding. *)
Lemma begin_registration_twice (E : Env) (user : User) (w w1 w2 : World) (data data' : json) :
  (∀ b, websafe_decode E (JStr (websafe_encode E b)) = inr b) →
  begin_registration E user w = (inr data, w1) →
  begin_registration E user w1 = (inr data', w2) →
  ∃ entity credentials entity' credentials' challenge,
    calls_made w w2
      [RegisterBegin (the_server E) entity credentials DISCOURAGED challenge;
       RegisterBegin (the_server E) entity' credentials' DISCOURAGED challenge].
Proof.
  intros Hcodec H1 H2.
  destruct (begin_registration_pending E user w w1 data Hcodec H1)
    as (entity & credentials & challenge & Hcalls & Hp).
  destruct (begin_registration_of_pending E user w1 w2 data' challenge Hp H2)
    as (entity' & credentials' & Hcalls').
  exists entity, credentials, entity', credentials', challenge.
  unfold calls_made in *. rewrite Hcalls', Hcalls, <- app_assoc. reflexivity.
Qed.

(** ** The credential repository *)

(** The reverse lookup does not read its [user] argument. *)
Lemma reverse_lookup_ignores_user (E : Env) (user user' : User) (cred_id : bytes)
    (w : World) :
  get_authenticator_by_credential_id E user cred_id w
    = get_authenticator_by_credential_id E user' cred_id w.
Proof. reflexivity. Qed.

(** When every row of type "webauthn" attests a credential, the reverse
    lookup returns the first of them, in storage order, whose identifier is
    [cred_id], and [None] when there is none. *)
Lemma reverse_lookup_first_match (E : Env) (user : User) (cred_id : bytes) (w : World) :
  Forall (attests E) (webauthn_rows (authenticators w)) →
  get_authenticator_by_credential_id E user cred_id w
    = (inr (find (has_credential_id E cred_id) (webauthn_rows (authenticators w))), w).
Proof.
  intros H. rewrite get_authenticator_by_credential_id_run.
  rewrite reverse_lookup_loop_find by done. reflexivity.
Qed.

(** C4, at the input on which the code departs from it. Bob's row, which
    has no attested credential data, is stored before the row of Alice's
    credential c1 01. The reverse lookup of c1 01 raises [AttributeError]
    on Bob's row and never reaches Alice's, which has the identifier;
    [get_credentials] on the same table skips Bob's row. *)
Theorem reverse_lookup_raises_on_unattested_row :
  get_authenticator_by_credential_id Sim.env Sim.alice [xc1; x01] Scenario.unattested_first
    = (inl AttributeError, Scenario.unattested_first) ∧
  find (has_credential_id Sim.env [xc1; x01])
       (webauthn_rows (authenticators Scenario.unattested_first))
    = Some (Sim.row 2 Sim.alice (Sim.attested [xc1; x01])) ∧
  get_credentials Sim.env Sim.bob Scenario.unattested_first
    = (inr [], Scenario.unattested_first).
Proof.
  split; [|split].
  - apply reverse_lookup_unattested with
      (a := Sim.row 1 Sim.bob Sim.unattested)
      (rows := [Sim.row 2 Sim.alice (Sim.attested [xc1; x01])])
      (ad := {| ad_bytes := Sim.unattested; credential_data := None |});
      vm_compute; reflexivity.
  - vm_compute. reflexivity.
  - vm_compute. reflexivity.
Qed.

(** C8. [get_credentials] returns what [credentialsFor] describes: the
    credential data of the user's rows of type "webauthn", in storage
    order, without the rows that have none (and the error of the first row
    that does not decode, if there is one). In particular it returns the
    empty list for a user without such a row. It leaves the world as it
    was. *)
Theorem get_credentials_refines_credentialsFor (E : Env) (user : User) (w : World) :
  get_credentials E user w = (credentialsFor E user (authenticators w), w) ∧
  (webauthn_rows_of user (authenticators w) = [] →
   get_credentials E user w = (inr [], w)).
Proof.
  assert (H : get_credentials E user w = (credentialsFor E user (authenticators w), w)).
  { rewrite get_credentials_run, get_credentials_loop_spec. reflexivity. }
  split; [exact H|].
  intros Hnone. rewrite H. unfold credentialsFor. rewrite Hnone. reflexivity.
Qed.

(** Of Bob's unattested row and Alice's attested one, Alice gets her
    credential and Bob none; Alice has none in an empty table. *)
Lemma get_credentials_refines_credentialsFor_witness :
  get_credentials Sim.env Sim.alice Scenario.unattested_first
    = (inr [Scenario.alice_credential], Scenario.unattested_first) ∧
  get_credentials Sim.env Sim.alice (Sim.world []) = (inr [], Sim.world []).
Proof.
  split.
  - rewrite (proj1 (get_credentials_refines_credentialsFor Sim.env Sim.alice
                      Scenario.unattested_first)).
    vm_compute. reflexivity.
  - apply (proj2 (get_credentials_refines_credentialsFor Sim.env Sim.alice (Sim.world []))).
    reflexivity.
Defined.

(** ** Authentication *)

(** X3. When the user handle of the response does not decode, by an error of
    one of the three classes the code catches, or decodes to a primary key
    no user has, [complete_authentication] without a user raises the
    validation error "incorrect_code" and leaves the world as it was: no
    server was called. *)
Lemma unresolvable_user_fails (E : Env) (response : json) (w : World) :
  (∃ e, user_pk_of_response E response = inl e ∧ e ∈ [ValueError; TypeError; KeyError]) ∨
  (∃ pk, user_pk_of_response E response = inr pk ∧
         filter (λ u, user_pk u = pk) (users w) = []) →
  complete_authentication E None response w = (inl (ValidationError "incorrect_code"), w).
Proof.
  intros H. rewrite complete_authentication_unknown, extract_user_from_response_run.
  destruct H as [(e & -> & He) | (pk & -> & ->)].
  - unfold handled. rewrite decide_True by done. reflexivity.
  - reflexivity.
Qed.

(** C6, at the input on which the code departs from it. The "response"
    entry of the response is a string: it has no [get], the
    [AttributeError] is none of the three classes the [try] catches, and
    [complete_authentication] without a user raises it, in every
    environment and every world. *)
Theorem ill_typed_response_raises_AttributeError (E : Env) (w : World) :
  user_pk_of_response E Scenario.ill_typed = inl AttributeError ∧
  complete_authentication E None Scenario.ill_typed w = (inl AttributeError, w).
Proof.
  split; [reflexivity|].
  rewrite complete_authentication_unknown, extract_user_from_response_run.
  reflexivity.
Qed.

(** ** Parsing the responses *)

(** X19. [parse_registration_response] and
    [parse_authentication_response] return what [from_dict] returns and
    raise what it raises, a [TypeError] apart, and leave the world as it
    was. *)
Lemma parse_response_passes_through (E : Env) (response : json) (w : World) :
  (RegistrationResponse_from_dict E response ≠ inl TypeError →
   parse_registration_response E response w = (RegistrationResponse_from_dict E response, w)) ∧
  (AuthenticationResponse_from_dict E response ≠ inl TypeError →
   parse_authentication_response E response w
     = (AuthenticationResponse_from_dict E response, w)).
Proof.
  unfold parse_registration_response, parse_authentication_response, try_except_raise, call.
  split.
  - intros H. destruct (RegistrationResponse_from_dict E response) as [e|r]; [|reflexivity].
    case_decide as He; [|reflexivity].
    apply list_elem_of_singleton in He. congruence.
  - intros H. destruct (AuthenticationResponse_from_dict E response) as [e|r]; [|reflexivity].
    case_decide as He; [|reflexivity].
    apply list_elem_of_singleton in He. congruence.
Qed.

(** A [TypeError] of [from_dict] is what the two parsers turn into the
    validation error "incorrect_code". *)
Lemma parse_response_maps_TypeError (E : Env) (response : json) (w : World) :
  (RegistrationResponse_from_dict E response = inl TypeError →
   parse_registration_response E response w = (inl (ValidationError "incorrect_code"), w)) ∧
  (AuthenticationResponse_from_dict E response = inl TypeError →
   parse_authentication_response E response w = (inl (ValidationError "incorrect_code"), w)).
Proof.
  unfold parse_registration_response, parse_authentication_response, try_except_raise, call.
  split; intros ->; rewrite decide_True by (apply list_elem_of_singleton; reflexivity);
    reflexivity.
Qed.

(** A response without identifier: a [TypeError] of the parser, and a
    validation error of both functions. *)
Example incomplete_response_is_validation_error :
  parse_registration_response Sim.env Scenario.incomplete Sim.registered
    = (inl (ValidationError "incorrect_code"), Sim.registered) ∧
  parse_authentication_response Sim.env Scenario.incomplete Sim.registered
    = (inl (ValidationError "incorrect_code"), Sim.registered).
Proof. split; vm_compute; reflexivity. Qed.

(** C7, at the inputs on which the code departs from it. When [from_dict]
    raises a [ValueError] on the response, as it does on a field that is
    there and does not parse, [parse_registration_response] and
    [parse_authentication_response] raise that [ValueError]: the [except]
    clause lists [TypeError] alone, and the response that does not parse
    is not turned into the validation error "incorrect_code". *)
Theorem parse_response_raises_ValueError (E : Env) (response : json) (w : World) :
  (RegistrationResponse_from_dict E response = inl ValueError →
   parse_registration_response E response w = (inl ValueError, w)) ∧
  (AuthenticationResponse_from_dict E response = inl ValueError →
   parse_authentication_response E response w = (inl ValueError, w)).
Proof.
  unfold parse_registration_response, parse_authentication_response, try_except_raise, call.
  split; intros ->;
    rewrite decide_False by (rewrite list_elem_of_singleton; discriminate);
    reflexivity.
Qed.

(** A response whose "response" is empty, and one whose identifier is not
    Base64, do not parse, and the [ValueError] is what both parsers
    raise. *)
Lemma parse_response_raises_ValueError_witness :
  parse_registration_response Sim.env Scenario.hollow Sim.registered
    = (inl ValueError, Sim.registered) ∧
  parse_authentication_response Sim.env Scenario.hollow Sim.registered
    = (inl ValueError, Sim.registered) ∧
  parse_registration_response Sim.env Scenario.undecodable Sim.registered
    = (inl ValueError, Sim.registered) ∧
  parse_authentication_response Sim.env Scenario.undecodable Sim.registered
    = (inl ValueError, Sim.registered).
Proof.
  destruct (parse_response_raises_ValueError Sim.env Scenario.hollow Sim.registered)
    as (Hregistration & Hauthentication).
  destruct (parse_response_raises_ValueError Sim.env Scenario.undecodable Sim.registered)
    as (Hregistration' & Hauthentication').
  split; [apply Hregistration; reflexivity|].
  split; [apply Hauthentication; reflexivity|].
  split; [apply Hregistration'|apply Hauthentication']; reflexivity.
Defined.

(** ** The record wrapper *)

(** C9. [add] stores one row, the last of the user's rows of type
    "webauthn", and returns its wrapper; read back, [is_passwordless] is
    the flag given and [name] the name given; [authenticator_data] is the
    authenticator data built from the Base64 decoding of the string given,
    and the bytes of that object are the decoded bytes. *)
Theorem add_round_trip (E : Env) (user : User) (n d : string) (p : bool) (w : World) :
  let row := added_row user n d p w in
  let stored := wrap row in
  add user n d p w = (inr stored, insert_authenticator row w) ∧
  last (webauthn_rows_of user (authenticators (insert_authenticator row w))) = Some row ∧
  is_passwordless stored = inr (JBool p) ∧
  name stored = inr (JStr n) ∧
  authenticator_data E stored
    = (decoded ← b64decode E (JStr d); new_AuthenticatorData E decoded) ∧
  (∀ decoded ad,
     b64decode E (JStr d) = inr decoded →
     authenticator_data E stored = inr ad →
     ad_bytes ad = decoded).
Proof.
  intros row stored. split; [reflexivity|]. split.
  { unfold webauthn_rows_of. simpl. rewrite filter_app.
    rewrite filter_cons_True by (simpl; auto). rewrite filter_nil.
    apply last_snoc. }
  split; [reflexivity|]. split; [reflexivity|]. split; [reflexivity|].
  intros decoded ad Hd. unfold authenticator_data. simpl. rewrite Hd. simpl.
  unfold new_AuthenticatorData.
  destruct (parse_credential_data E decoded) as [e|cd]; simpl; [discriminate|].
  intros [= <-]. reflexivity.
Qed.

(** Bob adds a passwordless key: the flag reads back [true] and the
    authenticator data read back are the bytes that were encoded. *)
Lemma add_round_trip_witness :
  let d := Base64.b64encode (Sim.attested [xc3; x03]) in
  let stored := wrap (added_row Sim.bob "passkey" d true Sim.registered) in
  is_passwordless stored = inr (JBool true) ∧
  ∃ ad, authenticator_data Sim.env stored = inr ad ∧
        ad_bytes ad = Sim.attested [xc3; x03].
Proof.
  cbv zeta.
  destruct (add_round_trip Sim.env Sim.bob "passkey"
              (Base64.b64encode (Sim.attested [xc3; x03])) true Sim.registered)
    as (_ & _ & Hflag & _ & _ & Hbytes).
  split; [exact Hflag|].
  exists {| ad_bytes := Sim.attested [xc3; x03];
            credential_data := Some {| aaguid := replicate 16 x00;
                                       credential_id := [xc3; x03];
                                       public_key := Sim.cose_key |} |}.
  assert (Hread : authenticator_data Sim.env
                    (wrap (added_row Sim.bob "passkey"
                             (Base64.b64encode (Sim.attested [xc3; x03])) true
                             Sim.registered))
                  = inr {| ad_bytes := Sim.attested [xc3; x03];
                           credential_data := Some {| aaguid := replicate 16 x00;
                                                      credential_id := [xc3; x03];
                                                      public_key := Sim.cose_key |} |})
    by (vm_compute; reflexivity).
  split; [exact Hread|].
  apply (Hbytes _ _ ltac:(vm_compute; reflexivity) Hread).
Defined.

(** ** Beginning a ceremony *)

(** C10. A [begin_registration] that returns has called the server once,
    with [register_begin], the user verification requirement "discouraged"
    and the credentials of the user; one that raises has called it so, or
    not at all. A [begin_authentication] that returns has called the
    server once, with [authenticate_begin], the requirement "preferred"
    and the credentials of the user, the empty list when there is no user;
    one that raises has called it so, or not at all. *)
Theorem begin_parameters (E : Env) (w : World) :
  (∀ user, ∃ calls,
     calls_made w (begin_registration E user w).2 calls ∧
     begin_calls (registers_discouraged E w user) (begin_registration E user w).1 calls) ∧
  (∀ user, ∃ calls,
     calls_made w (begin_authentication E user w).2 calls ∧
     begin_calls (authenticates_preferred E w user) (begin_authentication E user w).1 calls).
Proof.
  pose proof (generate_challenge_calls E w) as Hg.
  split; intros user.
  - rewrite begin_registration_run.
    destruct (get_credentials_loop E _ _) as [e|credentials] eqn:Hc.
    { exists []. split; [apply calls_made_nil|]. simpl. eauto. }
    destruct (new_user_entity E _) as [e|entity].
    { exists []. split; [apply calls_made_nil|]. simpl. eauto. }
    destruct (generate_challenge E w) as [[e|challenge] w1]; simpl in Hg.
    { exists []. split; [unfold calls_made; simpl; by rewrite Hg, app_nil_r|]. simpl. eauto. }
    eexists [_]. split.
    + unfold calls_made. destruct (register_begin E _ _ _ _ _) as [e|[data state]];
        simpl; rewrite Hg; reflexivity.
    + simpl. unfold registers_discouraged. do 3 eexists. split; [reflexivity|].
      rewrite get_credentials_run. exact Hc.
  - rewrite begin_authentication_run.
    destruct (match user with Some _ => _ | None => _ end) as [e|credentials] eqn:Hc.
    { exists []. split; [apply calls_made_nil|]. simpl. eauto. }
    destruct (generate_challenge E w) as [[e|challenge] w1]; simpl in Hg.
    { exists []. split; [unfold calls_made; simpl; by rewrite Hg, app_nil_r|]. simpl. eauto. }
    eexists [_]. split.
    + unfold calls_made. destruct (authenticate_begin E _ _ _ _) as [e|[options state]];
        simpl; rewrite Hg; reflexivity.
    + simpl. unfold authenticates_preferred. do 2 eexists. split; [reflexivity|].
      destruct user as [u|]; [rewrite get_credentials_run; exact Hc|congruence].
Qed.

(** Alice begins a registration in a world where no call was made yet:
    the one call in the log is a [register_begin] with "discouraged". An
    authentication begun without a user: one [authenticate_begin] with
    "preferred" and no credential. *)
Lemma begin_parameters_witness :
  (∃ entity credentials challenge,
     server_calls Sim.registering
       = [RegisterBegin (the_server Sim.env) entity credentials DISCOURAGED challenge]) ∧
  (∃ challenge,
     server_calls (begin_authentication Sim.env None Sim.registered).2
       = [AuthenticateBegin (the_server Sim.env) [] PREFERRED challenge]).
Proof.
  destruct (begin_parameters Sim.env Sim.registered) as [Hregistration Hauthentication].
  split.
  - destruct (Hregistration Sim.alice) as (calls & Hcalls & Hbegin).
    unfold calls_made in Hcalls. fold Sim.registering in Hcalls. simpl in Hcalls.
    rewrite Hcalls.
    destruct calls as [|c [|c' calls]]; simpl in Hbegin.
    + exfalso. revert Hcalls. vm_compute. discriminate.
    + destruct Hbegin as (entity & credentials & challenge & -> & _). eauto.
    + destruct Hbegin.
  - destruct (Hauthentication None) as (calls & Hcalls & Hbegin).
    unfold calls_made in Hcalls. simpl in Hcalls. rewrite Hcalls.
    destruct calls as [|c [|c' calls]]; simpl in Hbegin.
    + exfalso. revert Hcalls. vm_compute. discriminate.
    + destruct Hbegin as (credentials & challenge & -> & ->). eauto.
    + destruct Hbegin.
Defined.

(** * Further properties *)

(** ** The session store *)

Lemma set_session_id (w : World) (f : gmap string json → gmap string json) :
  f (session w) = session w → set_session f w = w.
Proof. intros H. destruct w. unfold set_session. simpl in *. rewrite H. reflexivity. Qed.

(** X1. The state stored by [set_state] is what [get_state] returns next,
    and a second [set_state] replaces it; after [clear_state],
    [get_state] returns [None]. The two keys are independent:
    [consume_challenge] leaves the state, [set_state] and [clear_state]
    leave the challenge. [clear_state] and [consume_challenge] change
    nothing, and do not raise, when their key is absent. *)
Theorem state_store_round_trip (w : World) (state state' : json) :
  (set_state state ;; get_state) w = (inr state, (set_state state w).2) ∧
  (set_state state ;; set_state state') w = set_state state' w ∧
  (clear_state ;; get_state) w = (inr JNull, (clear_state w).2) ∧
  (consume_challenge ;; get_state) w = (inr (stored_state w), (consume_challenge w).2) ∧
  stored_challenge (set_state state w).2 = stored_challenge w ∧
  stored_challenge (clear_state w).2 = stored_challenge w ∧
  (session w !! STATE_SESSION_KEY = None → clear_state w = (inr (), w)) ∧
  (session w !! CHALLENGE_SESSION_KEY = None → consume_challenge w = (inr (), w)).
Proof.
  unfold set_state, get_state, clear_state, consume_challenge, session_setitem,
    session_get, session_pop, stored_state, stored_challenge.
  repeat split; run.
  - rewrite lookup_insert_eq. reflexivity.
  - unfold set_session. simpl. rewrite insert_insert_eq. reflexivity.
  - rewrite lookup_delete_eq. reflexivity.
  - rewrite lookup_delete_ne by done. reflexivity.
  - rewrite lookup_insert_ne by done. reflexivity.
  - rewrite lookup_delete_ne by done. reflexivity.
  - intros H. rewrite set_session_id; [reflexivity|]. apply delete_id, H.
  - intros H. rewrite set_session_id; [reflexivity|]. apply delete_id, H.
Qed.

(** ** The reverse lookup *)

Lemma lookup_outcome_cons (E : Env) (cred_id : bytes) (a : Authenticator)
    (rows : list Authenticator) (r : exn + option Authenticator) :
  passes_over E cred_id a →
  lookup_outcome E cred_id rows r →
  lookup_outcome E cred_id (a :: rows) r.
Proof.
  intros Ha. destruct r as [e|[found|]]; simpl.
  - intros (before & b & after & -> & Hb & Hs). exists (a :: before), b, after.
    split; [reflexivity|]. split; [constructor; assumption|assumption].
  - intros (before & after & -> & Hb & Hf). exists (a :: before), after.
    split; [reflexivity|]. split; [constructor; assumption|assumption].
  - intros H. constructor; assumption.
Qed.

Lemma reverse_lookup_loop_outcome (E : Env) (cred_id : bytes) (rows : list Authenticator) :
  lookup_outcome E cred_id rows (get_authenticator_by_credential_id_loop E rows cred_id).
Proof.
  induction rows as [|a rows IH]; [constructor|].
  cbn [get_authenticator_by_credential_id_loop].
  destruct (authenticator_data E (wrap a)) as [e|ad] eqn:Had.
  { exists [], a, rows. split; [reflexivity|]. split; [constructor|]. left. exact Had. }
  cbn [mbind exn_bind]. destruct (credential_data ad) as [cd|] eqn:Hcd.
  - case_decide as Heq.
    + exists [], rows. split; [reflexivity|]. split; [constructor|].
      unfold has_credential_id. rewrite Had, Hcd. apply bool_decide_eq_true_2, Heq.
    + apply lookup_outcome_cons; [|exact IH]. split.
      * exists ad, cd. auto.
      * unfold has_credential_id. rewrite Had, Hcd. apply bool_decide_eq_false_2, Heq.
  - exists [], a, rows. split; [reflexivity|]. split; [constructor|]. right. eauto.
Qed.

(** X2. [get_authenticator_by_credential_id] gives the same answer for
    every [user] argument and leaves the world as it was. The answer is
    read off the rows of type "webauthn" of all users, in storage
    order: a row is returned only if it has the identifier and every row
    before it attests a credential with another identifier; [None] is
    returned only if every row attests a credential with another
    identifier; and an exception is the one of the first row that does not
    decode, or the [AttributeError] of the first row without credential
    data. *)
Theorem reverse_lookup_outcome (E : Env) (cred_id : bytes) (w : World) :
  ∃ r,
    (∀ user, get_authenticator_by_credential_id E user cred_id w = (r, w)) ∧
    lookup_outcome E cred_id (webauthn_rows (authenticators w)) r.
Proof.
  exists (get_authenticator_by_credential_id_loop E (webauthn_rows (authenticators w)) cred_id).
  split; [intros user; apply get_authenticator_by_credential_id_run|].
  apply reverse_lookup_loop_outcome.
Qed.

(** ** The credentials of a user *)

Lemma get_credentials_loop_origin (E : Env) (rows : list Authenticator)
    (acc credentials : list AttestedCredentialData) (cd : AttestedCredentialData) :
  get_credentials_loop E rows acc = inr credentials →
  cd ∈ credentials →
  cd ∈ acc ∨ ∃ a, a ∈ rows ∧ holds_credential E cd a.
Proof.
  revert acc. induction rows as [|a rows IH]; intros acc.
  - simpl. intros [= <-] H. left. exact H.
  - cbn [get_credentials_loop].
    destruct (authenticator_data E (wrap a)) as [e|ad] eqn:Had; [discriminate|].
    cbn [mbind exn_bind]. destruct (credential_data ad) as [cd'|] eqn:Hcd; intros Hrun Hin.
    + destruct (IH _ Hrun Hin) as [Hacc | (b & Hb & Hh)].
      * apply elem_of_app in Hacc as [Hacc | Hnew]; [left; exact Hacc|].
        apply list_elem_of_singleton in Hnew. subst cd'.
        right. exists a. split; [left|]. exists ad. auto.
      * right. exists b. split; [right; exact Hb|exact Hh].
    + destruct (IH _ Hrun Hin) as [Hacc | (b & Hb & Hh)]; [left; exact Hacc|].
      right. exists b. split; [right; exact Hb|exact Hh].
Qed.

Lemma get_credentials_loop_decodes (E : Env) (rows : list Authenticator)
    (acc : list AttestedCredentialData) :
  (∃ credentials, get_credentials_loop E rows acc = inr credentials) ↔
  Forall (λ a, ∃ ad, authenticator_data E (wrap a) = inr ad) rows.
Proof.
  revert acc. induction rows as [|a rows IH]; intros acc.
  - simpl. split; [constructor|eauto].
  - cbn [get_credentials_loop].
    destruct (authenticator_data E (wrap a)) as [e|ad] eqn:Had.
    + split.
      * intros [credentials H]. discriminate.
      * intros H. inversion H as [|? ? [ad Hd] _]; subst. congruence.
    + cbn [mbind exn_bind]. destruct (credential_data ad) as [cd|];
        rewrite IH; (split; [intros H; constructor; eauto|intros H; inversion H; assumption]).
Qed.

Lemma get_credentials_loop_length (E : Env) (rows : list Authenticator)
    (acc credentials : list AttestedCredentialData) :
  get_credentials_loop E rows acc = inr credentials →
  (length credentials ≤ length acc + length rows)%nat.
Proof.
  revert acc. induction rows as [|a rows IH]; intros acc.
  - simpl. intros [= <-]. lia.
  - cbn [get_credentials_loop].
    destruct (authenticator_data E (wrap a)) as [e|ad]; [discriminate|].
    cbn [mbind exn_bind]. destruct (credential_data ad) as [cd|]; intros Hrun;
      apply IH in Hrun; rewrite ?length_app in Hrun; simpl in *; lia.
Qed.

Lemma get_credentials_loop_app (E : Env) (rows rows' : list Authenticator)
    (acc : list AttestedCredentialData) :
  get_credentials_loop E (rows ++ rows') acc =
    (credentials ← get_credentials_loop E rows acc; get_credentials_loop E rows' credentials).
Proof.
  revert acc. induction rows as [|a rows IH]; intros acc; [reflexivity|].
  cbn [app get_credentials_loop].
  destruct (authenticator_data E (wrap a)) as [e|ad]; [reflexivity|].
  cbn [mbind exn_bind]. destruct (credential_data ad); apply IH.
Qed.

(** X7. [get_credentials] returns a list exactly when every row of type
    "webauthn" of the user decodes; one row that does not makes it raise.
    The list has at most one credential per such row, and every
    credential in it is the credential data of a row of that user: no row
    of another user and no row of another type contributes. *)
Theorem get_credentials_of_decodable_rows (E : Env) (user : User) (w : World) :
  ((∃ credentials, get_credentials E user w = (inr credentials, w)) ↔
   Forall (λ a, ∃ ad, authenticator_data E (wrap a) = inr ad)
     (webauthn_rows_of user (authenticators w))) ∧
  (∀ credentials,
     get_credentials E user w = (inr credentials, w) →
     (length credentials ≤ length (webauthn_rows_of user (authenticators w)))%nat ∧
     ∀ cd, cd ∈ credentials →
       ∃ a, a ∈ authenticators w ∧ auth_user a = user_pk user ∧
            auth_type a = WEBAUTHN ∧ holds_credential E cd a).
Proof.
  rewrite get_credentials_run. split.
  - rewrite <- (get_credentials_loop_decodes E _ []). split.
    + intros [credentials [= H]]. eauto.
    + intros [credentials H]. exists credentials. rewrite H. reflexivity.
  - intros credentials [= Hrun]. split.
    + apply get_credentials_loop_length in Hrun. simpl in Hrun. exact Hrun.
    + intros cd Hin.
      destruct (get_credentials_loop_origin E _ _ _ cd Hrun Hin) as [Hnil | (a & Ha & Hh)].
      { apply elem_of_nil in Hnil. destruct Hnil. }
      unfold webauthn_rows_of in Ha. apply list_elem_of_filter in Ha as [[Hu Ht] Ha].
      exists a. auto.
Qed.

(** X8. After [add] stored a row for a user whose credentials could be
    read, [get_credentials] of that user returns the credentials it
    returned before, followed by the credential of the new row if the row
    has one, and raises the error of the new row if it does not decode;
    the credentials of every other user are what they were. *)
Theorem add_extends_credentials (E : Env) (user : User) (n d : string) (p : bool)
    (w : World) (credentials : list AttestedCredentialData) :
  get_credentials E user w = (inr credentials, w) →
  let w' := (add user n d p w).2 in
  let stored := wrap (added_row user n d p w) in
  get_credentials E user w' =
    (match authenticator_data E stored with
     | inr ad => inr (credentials ++ option_list (credential_data ad))
     | inl e => inl e
     end, w') ∧
  (∀ other, user_pk other ≠ user_pk user →
     (get_credentials E other w').1 = (get_credentials E other w).1).
Proof.
  intros Hc w' stored. rewrite get_credentials_run in Hc. injection Hc as Hc.
  split.
  - rewrite get_credentials_run. f_equal.
    unfold w', add, save. run. unfold webauthn_rows_of. rewrite filter_app.
    rewrite filter_cons_True by (simpl; auto). rewrite filter_nil.
    rewrite get_credentials_loop_app. fold (webauthn_rows_of user (authenticators w)).
    rewrite Hc. cbn [mbind exn_bind get_credentials_loop].
    fold (added_row user n d p w). fold stored.
    destruct (authenticator_data E stored) as [e|ad]; [reflexivity|].
    cbn [mbind exn_bind]. destruct (credential_data ad); simpl; [reflexivity|].
    rewrite app_nil_r. reflexivity.
  - intros other Hne. rewrite !get_credentials_run. simpl.
    unfold webauthn_rows_of. rewrite filter_app.
    rewrite filter_cons_False by (simpl; intros [H _]; congruence).
    rewrite filter_nil, app_nil_r. reflexivity.
Qed.

(** Bob, who had no key, adds one: he has one credential, and Alice's are
    what they were. *)
Lemma add_extends_credentials_witness :
  let w' := (add Sim.bob "key" (Base64.b64encode (Sim.attested [xc3; x03])) false
               Sim.registered).2 in
  (get_credentials Sim.env Sim.bob w').1
    = inr [{| aaguid := replicate 16 x00;
              credential_id := [xc3; x03];
              public_key := Sim.cose_key |}] ∧
  (get_credentials Sim.env Sim.alice w').1
    = (get_credentials Sim.env Sim.alice Sim.registered).1.
Proof.
  cbv zeta.
  destruct (add_extends_credentials Sim.env Sim.bob "key"
              (Base64.b64encode (Sim.attested [xc3; x03])) false Sim.registered [])
    as [Hbob Hothers].
  - vm_compute. reflexivity.
  - split.
    + rewrite Hbob. vm_compute. reflexivity.
    + apply Hothers. vm_compute. discriminate.
Defined.

(** X9. The authenticator data a registration returned, serialized with
    [serialize_authenticator_data] and stored with [add], are read back
    by the [authenticator_data] property as the same object, when
    [b64decode] undoes [b64encode] on its bytes and its credential data
    are those its bytes parse to; the name and the flag are read back as
    given. *)
Theorem registered_data_reads_back (E : Env) (ad : AuthenticatorData) (user : User)
    (n : string) (p : bool) (w : World) :
  b64decode E (JStr (b64encode E (ad_bytes ad))) = inr (ad_bytes ad) →
  parse_credential_data E (ad_bytes ad) = inr (credential_data ad) →
  ∃ stored,
    (add user n (serialize_authenticator_data E ad) p w).1 = inr stored ∧
    authenticator_data E stored = inr ad ∧
    name stored = inr (JStr n) ∧
    is_passwordless stored = inr (JBool p).
Proof.
  intros Hcodec Hparse. eexists. split; [reflexivity|]. split; [|split; reflexivity].
  unfold authenticator_data, serialize_authenticator_data. simpl.
  rewrite Hcodec. simpl. unfold new_AuthenticatorData. rewrite Hparse. simpl.
  destruct ad. reflexivity.
Qed.

(** The authenticator data of the registration Alice completed. *)
Lemma registered_data_reads_back_witness :
  ∃ stored,
    (add Sim.alice "second key"
       (serialize_authenticator_data Sim.env Scenario.second_credential) true
       Scenario.enrolled).1 = inr stored ∧
    authenticator_data Sim.env stored = inr Scenario.second_credential ∧
    name stored = inr (JStr "second key") ∧
    is_passwordless stored = inr (JBool true).
Proof.
  apply (registered_data_reads_back Sim.env Scenario.second_credential Sim.alice
           "second key" true Scenario.enrolled).
  - vm_compute. reflexivity.
  - vm_compute. reflexivity.
Defined.

(** ** The user of a passwordless response *)

(** The handle names the primary key 9, which no user has. *)
Lemma unresolvable_user_fails_witness :
  complete_authentication Sim.env None Scenario.unknown_handle Sim.authenticating
    = (inl (ValidationError "incorrect_code"), Sim.authenticating).
Proof.
  apply (unresolvable_user_fails Sim.env Scenario.unknown_handle Sim.authenticating).
  right. exists 9%N. split; vm_compute; reflexivity.
Defined.

(** X4. When [extract_user_from_response] returns a user, the user handle
    of the response decodes to the primary key of that user, the user is
    the first account with that key, and the world is as it was. *)
Theorem extract_user_resolves (E : Env) (response : json) (w w' : World) (user : User) :
  extract_user_from_response E response w = (inr user, w') →
  w' = w ∧
  user_pk_of_response E response = inr (user_pk user) ∧
  head (filter (λ u, user_pk u = user_pk user) (users w)) = Some user.
Proof.
  rewrite extract_user_from_response_run.
  destruct (user_pk_of_response E response) as [e|pk]; [discriminate|].
  destruct (head _) as [u|] eqn:Hhead; [|discriminate].
  intros [= -> <-]. split; [reflexivity|].
  assert (Hpk : user_pk user = pk).
  { apply head_Some_elem_of in Hhead. apply list_elem_of_filter in Hhead as [H _]. exact H. }
  rewrite Hpk. auto.
Qed.

(** The handle of Alice's assertion is her primary key. *)
Lemma extract_user_resolves_witness :
  user_pk_of_response Sim.env Scenario.alice_assertion = inr (user_pk Sim.alice) ∧
  head (filter (λ u, user_pk u = user_pk Sim.alice) (users Sim.authenticating))
    = Some Sim.alice.
Proof.
  apply (extract_user_resolves Sim.env Scenario.alice_assertion Sim.authenticating
           Sim.authenticating Sim.alice).
  vm_compute. reflexivity.
Defined.

(** X5. Without a user, when the response names one,
    [complete_authentication] does what it does when it is given that
    user: same result, same session, same calls to the server. *)
Theorem passwordless_completion_as_known (E : Env) (response : json) (w w' : World)
    (user : User) :
  extract_user_from_response E response w = (inr user, w') →
  complete_authentication E None response w = complete_authentication E (Some user) response w.
Proof.
  intros H. rewrite complete_authentication_unknown, H. reflexivity.
Qed.

(** Alice's assertion, completed without a user and completed for Alice. *)
Lemma passwordless_completion_as_known_witness :
  complete_authentication Sim.env None Scenario.alice_assertion Sim.authenticating
    = complete_authentication Sim.env (Some Sim.alice) Scenario.alice_assertion
        Sim.authenticating.
Proof.
  apply (passwordless_completion_as_known Sim.env Scenario.alice_assertion
           Sim.authenticating Sim.authenticating Sim.alice).
  vm_compute. reflexivity.
Defined.

(** ** Completing an authentication *)

(** X6. When every row of type "webauthn" attests a credential and the
    server returns one of the credentials it was given,
    [complete_authentication] returns a row, never [None]: a row of type
    "webauthn" of the table, with the identifier of the credential the
    server returned. *)
Theorem accepted_credential_has_row (E : Env) (user : User) (response : json) (w : World)
    (credentials : list AttestedCredentialData) (binding : AttestedCredentialData) :
  Forall (attests E) (webauthn_rows (authenticators w)) →
  get_credentials E user w = (inr credentials, w) →
  authenticate_complete E (the_server E) (stored_state w) credentials response = inr binding →
  binding ∈ credentials →
  ∃ a,
    (complete_authentication E (Some user) response w).1 = inr (Some a) ∧
    a ∈ authenticators w ∧
    auth_type a = WEBAUTHN ∧
    has_credential_id E (credential_id binding) a = true.
Proof.
  intros Hattest Hc Hv Hin. rewrite get_credentials_run in Hc. injection Hc as Hc.
  rewrite complete_authentication_known, Hc. cbv zeta. rewrite Hv. simpl.
  rewrite reverse_lookup_loop_find by done.
  destruct (get_credentials_loop_origin E _ _ _ binding Hc Hin) as [Hnil | (b & Hb & Hh)].
  { apply elem_of_nil in Hnil. destruct Hnil. }
  assert (Hbw : b ∈ webauthn_rows (authenticators w)).
  { unfold webauthn_rows_of in Hb. apply list_elem_of_filter in Hb as [[_ Ht] Hb].
    unfold webauthn_rows. apply list_elem_of_filter. auto. }
  assert (Hmatch : has_credential_id E (credential_id binding) b = true).
  { destruct Hh as (ad & Had & Hcd). unfold has_credential_id. rewrite Had, Hcd.
    apply bool_decide_eq_true_2. reflexivity. }
  destruct (find _ _) as [a|] eqn:Hfind.
  - apply find_some in Hfind as [Ha Hp]. exists a. split; [reflexivity|].
    apply list_elem_of_In in Ha. unfold webauthn_rows in Ha.
    apply list_elem_of_filter in Ha as [Ht Ha]. auto.
  - apply list_elem_of_In in Hbw. pose proof (find_none _ _ Hfind b Hbw) as Hnone.
    congruence.
Qed.

(** Alice's assertion is accepted, and her row is returned. *)
Lemma accepted_credential_has_row_witness :
  ∃ a,
    (complete_authentication Sim.env (Some Sim.alice) Scenario.alice_assertion
       Sim.authenticating).1 = inr (Some a) ∧
    a ∈ authenticators Sim.authenticating ∧
    auth_type a = WEBAUTHN ∧
    has_credential_id Sim.env [xc1; x01] a = true.
Proof.
  apply (accepted_credential_has_row Sim.env Sim.alice Scenario.alice_assertion
           Sim.authenticating [Scenario.alice_credential] Scenario.alice_credential).
  - replace (webauthn_rows (authenticators Sim.authenticating))
      with [Sim.row 1 Sim.alice (Sim.attested [xc1; x01])] by (vm_compute; reflexivity).
    constructor; [|constructor].
    exists {| ad_bytes := Sim.attested [xc1; x01];
              credential_data := Some Scenario.alice_credential |},
      Scenario.alice_credential.
    split; vm_compute; reflexivity.
  - vm_compute. reflexivity.
  - vm_compute. reflexivity.
  - left.
Defined.



(** X14. [complete_registration] raises the exception of
    [register_complete] as it is, a [ValueError] included;
    [complete_authentication] raises the validation error "incorrect_code"
    for a [ValueError] of [authenticate_complete] and every other
    exception as it is. Neither checks the ceremony state: without a
    stored state, the server is called with [None]. *)
Theorem completion_error_classes (E : Env) (w : World) :
  (∀ credential e,
     register_complete E (the_server E) (stored_state w) credential = inl e →
     (complete_registration E credential w).1 = inl e) ∧
  (∀ user response credentials e,
     get_credentials E user w = (inr credentials, w) →
     authenticate_complete E (the_server E) (stored_state w) credentials response = inl e →
     (complete_authentication E (Some user) response w).1
       = inl (if decide (e = ValueError) then ValidationError "incorrect_code" else e)) ∧
  (session w !! STATE_SESSION_KEY = None → stored_state w = JNull).
Proof.
  split; [|split].
  - intros credential e H. rewrite complete_registration_run. cbv zeta. rewrite H. reflexivity.
  - intros user response credentials e Hc H. rewrite get_credentials_run in Hc.
    injection Hc as Hc. rewrite complete_authentication_known, Hc. cbv zeta. rewrite H.
    simpl. unfold handled. f_equal.
    destruct (decide (e = ValueError)) as [-> | Hne].
    + rewrite decide_True by (apply list_elem_of_singleton; reflexivity). reflexivity.
    + rewrite decide_False by (rewrite list_elem_of_singleton; exact Hne). reflexivity.
  - intros H. unfold stored_state. rewrite H. reflexivity.
Qed.

(** In a session without ceremony state, the simulated server cannot
    index [None]: the registration raises its [TypeError] and the
    authentication too; on a stale challenge the registration raises the
    server's [ValueError] and the authentication "incorrect_code". *)
Lemma completion_error_classes_witness :
  (complete_registration Sim.env Scenario.attestation Sim.registered).1 = inl TypeError ∧
  (complete_authentication Sim.env (Some Sim.alice) Scenario.alice_assertion
     Sim.registered).1 = inl TypeError ∧
  (complete_registration Sim.env Scenario.stale Sim.registering).1 = inl ValueError ∧
  (complete_authentication Sim.env (Some Sim.alice) Scenario.stale Sim.authenticating).1
    = inl (ValidationError "incorrect_code").
Proof.
  destruct (completion_error_classes Sim.env Sim.registered) as (Hr & Ha & _).
  destruct (completion_error_classes Sim.env Sim.registering) as (Hr' & _ & _).
  destruct (completion_error_classes Sim.env Sim.authenticating) as (_ & Ha' & _).
  split; [|split; [|split]].
  - apply Hr. vm_compute. reflexivity.
  - apply (Ha Sim.alice Scenario.alice_assertion [Scenario.alice_credential] TypeError);
      vm_compute; reflexivity.
  - apply Hr'. vm_compute. reflexivity.
  - apply (Ha' Sim.alice Scenario.stale [Scenario.alice_credential] ValueError);
      vm_compute; reflexivity.
Defined.

(** ** From begin to complete *)

(** X10. The ceremony state the server returned to a begin call that
    returned is the state the server is given by the completion call that
    follows in the same session, for a registration and for an
    authentication; the options the begin call returns are the server's. *)
Theorem begin_state_reaches_complete (E : Env) (w w1 : World) :
  (∀ user data,
     begin_registration E user w = (inr data, w1) →
     ∃ entity credentials challenge state,
       register_begin E (the_server E) entity credentials DISCOURAGED challenge
         = inr (data, state) ∧
       ∀ credential,
         calls_made w1 (complete_registration E credential w1).2
           [RegisterComplete (the_server E) state credential]) ∧
  (∀ user options,
     begin_authentication E user w = (inr options, w1) →
     ∃ credentials challenge state,
       authenticate_begin E (the_server E) credentials PREFERRED challenge
         = inr (options, state) ∧
       ∀ known response credentials',
         get_credentials E known w1 = (inr credentials', w1) →
         calls_made w1 (complete_authentication E (Some known) response w1).2
           [AuthenticateComplete (the_server E) state credentials' response]).
Proof.
  split.
  - intros user data. rewrite begin_registration_run.
    destruct (get_credentials_loop E _ _) as [e|credentials]; [discriminate|].
    destruct (new_user_entity E _) as [e|entity]; [discriminate|].
    destruct (generate_challenge E w) as [[e|challenge] w0]; [discriminate|].
    cbv zeta. destruct (register_begin E _ _ _ _ _) as [e|[data' state]] eqn:Hb; [discriminate|].
    intros [= <- Hw1]. exists entity, credentials, challenge, state. split; [exact Hb|].
    assert (Hs : stored_state w1 = state).
    { rewrite <- Hw1. unfold stored_state. simpl. rewrite lookup_insert_eq. reflexivity. }
    intros credential. rewrite complete_registration_run. cbv zeta.
    rewrite Hs. destruct (register_complete E _ _ _); reflexivity.
  - intros user options. rewrite begin_authentication_run.
    destruct (match user with Some _ => _ | None => _ end) as [e|credentials]; [discriminate|].
    destruct (generate_challenge E w) as [[e|challenge] w0]; [discriminate|].
    cbv zeta. destruct (authenticate_begin E _ _ _ _) as [e|[options' state]] eqn:Hb;
      [discriminate|].
    intros [= <- Hw1]. exists credentials, challenge, state. split; [exact Hb|].
    assert (Hs : stored_state w1 = state).
    { rewrite <- Hw1. unfold stored_state. simpl. rewrite lookup_insert_eq. reflexivity. }
    intros known response credentials' Hc. rewrite get_credentials_run in Hc.
    injection Hc as Hc. rewrite complete_authentication_known, Hc. cbv zeta.
    rewrite Hs. destruct (authenticate_complete E _ _ _ _); reflexivity.
Qed.

(** The state of the registration Alice began is the one her completion
    hands to the server. *)
Lemma begin_state_reaches_complete_witness :
  ∃ entity credentials challenge state,
    register_begin Sim.env (the_server Sim.env) entity credentials DISCOURAGED challenge
      = inr (Scenario.registration_options, state) ∧
    calls_made Sim.registering
      (complete_registration Sim.env Scenario.attestation Sim.registering).2
      [RegisterComplete (the_server Sim.env) state Scenario.attestation].
Proof.
  destruct (begin_state_reaches_complete Sim.env Sim.registered Sim.registering)
    as [Hregistration _].
  destruct (Hregistration Sim.alice Scenario.registration_options)
    as (entity & credentials & challenge & state & Hbegin & Hcomplete).
  - vm_compute. reflexivity.
  - exists entity, credentials, challenge, state. split; [exact Hbegin|].
    apply Hcomplete.
Defined.

(** The two registrations Alice begins pass the same challenge. *)
Lemma begin_registration_twice_witness :
  ∃ entity credentials entity' credentials' challenge,
    calls_made Sim.registered Scenario.registering_again
      [RegisterBegin (the_server Sim.env) entity credentials DISCOURAGED challenge;
       RegisterBegin (the_server Sim.env) entity' credentials' DISCOURAGED challenge].
Proof.
  apply (begin_registration_twice Sim.env Sim.alice Sim.registered Sim.registering
           Scenario.registering_again Scenario.registration_options
           Scenario.second_options).
  - apply websafe_decode_encode.
  - vm_compute. reflexivity.
  - vm_compute. reflexivity.
Defined.

(** X18. A registration and then an authentication begun in the same
    session, both returning, pass the same challenge to the server, when
    decoding undoes encoding: the challenge is shared between the two
    kinds of ceremony, while the stored state becomes the state of the
    authentication. *)
Theorem ceremonies_share_challenge (E : Env) (user : User) (known : option User)
    (w w1 w2 : World) (data options : json) :
  (∀ b, websafe_decode E (JStr (websafe_encode E b)) = inr b) →
  begin_registration E user w = (inr data, w1) →
  begin_authentication E known w1 = (inr options, w2) →
  ∃ entity credentials credentials' challenge state,
    calls_made w w2
      [RegisterBegin (the_server E) entity credentials DISCOURAGED challenge;
       AuthenticateBegin (the_server E) credentials' PREFERRED challenge] ∧
    authenticate_begin E (the_server E) credentials' PREFERRED challenge
      = inr (options, state) ∧
    stored_state w2 = state ∧
    challenge_pending E challenge w2.
Proof.
  intros Hcodec H1 H2.
  destruct (begin_registration_pending E user w w1 data Hcodec H1)
    as (entity & credentials & challenge & Hcalls & Hp).
  rewrite begin_authentication_run in H2.
  destruct (match known with Some _ => _ | None => _ end) as [e|credentials']; [discriminate|].
  rewrite (generate_challenge_of_pending E challenge w1 Hp) in H2. cbv zeta in H2.
  destruct (authenticate_begin E _ _ _ _) as [e|[options' state]] eqn:Hb; [discriminate|].
  injection H2 as <- <-. exists entity, credentials, credentials', challenge, state.
  split; [|split; [exact Hb|split]].
  - unfold calls_made in *. simpl. rewrite Hcalls, <- app_assoc. reflexivity.
  - unfold stored_state. simpl. rewrite lookup_insert_eq. reflexivity.
  - apply challenge_pending_set_state, Hp.
Qed.

(** Alice begins a registration, and then an authentication is begun
    without a user. *)
Lemma ceremonies_share_challenge_witness :
  ∃ entity credentials credentials' challenge state,
    calls_made Sim.registered Scenario.then_authenticating
      [RegisterBegin (the_server Sim.env) entity credentials DISCOURAGED challenge;
       AuthenticateBegin (the_server Sim.env) credentials' PREFERRED challenge] ∧
    authenticate_begin Sim.env (the_server Sim.env) credentials' PREFERRED challenge
      = inr (Scenario.passwordless_options, state) ∧
    stored_state Scenario.then_authenticating = state ∧
    challenge_pending Sim.env challenge Scenario.then_authenticating.
Proof.
  apply (ceremonies_share_challenge Sim.env Sim.alice None Sim.registered Sim.registering
           Scenario.then_authenticating Scenario.registration_options
           Scenario.passwordless_options).
  - apply websafe_decode_encode.
  - vm_compute. reflexivity.
  - vm_compute. reflexivity.
Defined.

(** A completion that returns leaves the world cleared, one call later. *)
Lemma completes_cleared (E : Env) (w w' : World) :
  completes E w w' → ∃ c, w' = cleared (log_call c w).
Proof.
  intros [credential binding H | user response authenticator H].
  - rewrite complete_registration_run in H. cbv zeta in H.
    destruct (register_complete E _ _ _); [discriminate|].
    injection H as _ <-. eauto.
  - assert (Hknown : ∃ u, complete_authentication E (Some u) response w
                          = (inr authenticator, w')).
    { destruct user as [u|]; [eauto|].
      rewrite complete_authentication_unknown in H.
      destruct (extract_user_from_response E response w) as [[e|u] w0];
        [discriminate|eauto]. }
    destruct Hknown as [u Hu]. rewrite complete_authentication_known in Hu.
    destruct (get_credentials_loop E _ _) as [e|credentials]; [discriminate|].
    cbv zeta in Hu.
    destruct (authenticate_complete E _ _ _ _) as [e|binding]; [discriminate|].
    injection Hu as _ <-. eauto.
Qed.

(** X12. After a completion that returned, no byte has been drawn and
    the next [generate_challenge] draws 32 new bytes: a registration begun
    next passes the server the bytes at the current position of the
    entropy source, not the challenge of the completed ceremony. *)
Theorem completion_frees_challenge (E : Env) (w w' : World) :
  completes E w w' →
  urandom_pos w' = urandom_pos w ∧
  generate_challenge E w' = (inr (next_random E w' 32), minted E w') ∧
  ∀ user data w2,
    begin_registration E user w' = (inr data, w2) →
    ∃ entity credentials,
      calls_made w' w2
        [RegisterBegin (the_server E) entity credentials DISCOURAGED (next_random E w 32)].
Proof.
  intros H. destruct (completes_cleared E w w' H) as [c ->].
  assert (Hfresh : generate_challenge E (cleared (log_call c w))
                   = (inr (next_random E (cleared (log_call c w)) 32),
                      minted E (cleared (log_call c w)))).
  { apply generate_challenge_fresh. unfold stored_challenge. simpl.
    rewrite lookup_delete_ne by done. rewrite lookup_delete_eq. reflexivity. }
  split; [reflexivity|]. split; [exact Hfresh|].
  intros user data w2. rewrite begin_registration_run.
  destruct (get_credentials_loop E _ _) as [e|credentials]; [discriminate|].
  destruct (new_user_entity E _) as [e|entity]; [discriminate|].
  rewrite Hfresh. cbv zeta.
  destruct (register_begin E _ _ _ _ _) as [e|[data' state]]; [discriminate|].
  intros [= <- <-]. exists entity, credentials. reflexivity.
Qed.

(** After Alice's registration, the next challenge is made of the bytes
    32 to 63 of the entropy source; the first 32 were her challenge. *)
Lemma completion_frees_challenge_witness :
  urandom_pos Scenario.enrolled = 32 ∧
  (generate_challenge Sim.env Scenario.enrolled).1 = inr (Sim.tape <$> seq 32 32).
Proof.
  destruct (completion_frees_challenge Sim.env Sim.registering Scenario.enrolled)
    as (Hpos & Hnext & _).
  - apply completes_registration with
      (credential := Scenario.attestation) (binding := Scenario.second_credential).
    vm_compute. reflexivity.
  - split; [rewrite Hpos; vm_compute; reflexivity|].
    rewrite Hnext. unfold next_random. rewrite Hpos. reflexivity.
Defined.

(** ** Failures of a begin call *)

(** X13. A string stored as the challenge that does not decode makes
    [generate_challenge] raise the decoder's exception and leaves the
    session as it is; [begin_registration] and [begin_authentication]
    then raise, for every user, without calling the server and without
    replacing the challenge, so that they raise again when called
    again. *)
Theorem undecodable_challenge_blocks_begin (E : Env) (w : World) (stored : string)
    (e : exn) :
  session w !! CHALLENGE_SESSION_KEY = Some (JStr stored) →
  websafe_decode E (JStr stored) = inl e →
  generate_challenge E w = (inl e, w) ∧
  (∀ user, ∃ e', begin_registration E user w = (inl e', w)) ∧
  (∀ user, ∃ e', begin_authentication E user w = (inl e', w)).
Proof.
  intros Hs Hd.
  assert (Hstored : stored_challenge w = JStr stored).
  { unfold stored_challenge. rewrite Hs. reflexivity. }
  assert (Hg : generate_challenge E w = (inl e, w)).
  { rewrite generate_challenge_stored by (rewrite Hstored; reflexivity).
    rewrite Hstored, Hd. reflexivity. }
  split; [exact Hg|]. split; intros user.
  - rewrite begin_registration_run.
    destruct (get_credentials_loop E _ _) as [e'|credentials]; [eauto|].
    destruct (new_user_entity E _) as [e'|entity]; [eauto|].
    rewrite Hg. eauto.
  - rewrite begin_authentication_run.
    destruct (match user with Some _ => _ | None => _ end) as [e'|credentials]; [eauto|].
    rewrite Hg. eauto.
Qed.

(** The stored challenge "a" is not Base64. *)
Lemma undecodable_challenge_blocks_begin_witness :
  generate_challenge Sim.env Scenario.garbled = (inl ValueError, Scenario.garbled) ∧
  (∀ user, ∃ e', begin_registration Sim.env user Scenario.garbled
                 = (inl e', Scenario.garbled)) ∧
  (∀ user, ∃ e', begin_authentication Sim.env user Scenario.garbled
                 = (inl e', Scenario.garbled)).
Proof.
  apply (undecodable_challenge_blocks_begin Sim.env Scenario.garbled "a" ValueError).
  - vm_compute. reflexivity.
  - vm_compute. reflexivity.
Defined.

(** X16. When the user's credentials can be read: if the user entity
    cannot be built, [begin_registration] raises that exception and
    changes nothing, no challenge is drawn; if [register_begin] raises,
    [begin_registration] raises that exception, the session is as
    [generate_challenge] left it (a challenge drawn for this call stays
    stored) and the ceremony state is the one stored before, if any. *)
Theorem begin_registration_failures (E : Env) (user : User) (w : World)
    (credentials : list AttestedCredentialData) :
  get_credentials E user w = (inr credentials, w) →
  (∀ e,
     new_user_entity E (get_public_key_credential_user_entity E user) = inl e →
     begin_registration E user w = (inl e, w)) ∧
  (∀ entity challenge w1 e,
     new_user_entity E (get_public_key_credential_user_entity E user) = inr entity →
     generate_challenge E w = (inr challenge, w1) →
     register_begin E (the_server E) entity credentials DISCOURAGED challenge = inl e →
     ∃ w',
       begin_registration E user w = (inl e, w') ∧
       session w' = session w1 ∧
       stored_state w' = stored_state w ∧
       (websafe_decode E (JStr (websafe_encode E challenge)) = inr challenge →
        challenge_pending E challenge w')).
Proof.
  intros Hc. rewrite get_credentials_run in Hc. injection Hc as Hc. split.
  - intros e He. rewrite begin_registration_run, Hc, He. reflexivity.
  - intros entity challenge w1 e He Hg Hb.
    rewrite begin_registration_run, Hc, He, Hg. cbv zeta. rewrite Hb.
    eexists. split; [reflexivity|]. split; [reflexivity|]. split.
    + unfold stored_state. simpl.
      destruct (is_not_None (stored_challenge w)) eqn:Hs.
      * rewrite generate_challenge_stored in Hg by done. injection Hg as _ <-. reflexivity.
      * rewrite generate_challenge_fresh in Hg by done. injection Hg as _ <-. simpl.
        rewrite lookup_insert_ne by done. reflexivity.
    + intros Hcodec. pose proof (generate_challenge_pending E w w1 challenge Hg Hcodec) as Hp.
      exact Hp.
Qed.

(** The server refuses Alice's registration: the call raises, the
    challenge drawn for it is pending, and no state is stored. *)
Lemma begin_registration_failures_witness :
  ∃ w',
    begin_registration Sim.refusing Sim.alice Sim.registered
      = (inl (OtherError "unavailable"), w') ∧
    stored_state w' = JNull ∧
    challenge_pending Sim.refusing (next_random Sim.refusing Sim.registered 32) w'.
Proof.
  destruct (begin_registration_failures Sim.refusing Sim.alice Sim.registered
              [Scenario.alice_credential]) as [_ Hserver].
  - vm_compute. reflexivity.
  - destruct (Hserver {| entity_id := Sim.ascii_bytes "alice";
                         entity_name := "alice";
                         entity_display_name := "alice" |}
                (next_random Sim.refusing Sim.registered 32)
                (minted Sim.refusing Sim.registered) (OtherError "unavailable"))
      as (w' & Hrun & _ & Hstate & Hpending).
    + vm_compute. reflexivity.
    + apply generate_challenge_fresh. reflexivity.
    + reflexivity.
    + exists w'. split; [exact Hrun|]. split; [rewrite Hstate; reflexivity|].
      apply Hpending. apply websafe_decode_encode.
Defined.

(** ** What the operations leave alone *)

Lemma same_tables_refl (w : World) : same_tables w w.
Proof. repeat split. Qed.

Lemma generate_challenge_tables (E : Env) (w : World) :
  same_tables w (generate_challenge E w).2.
Proof.
  destruct (is_not_None (stored_challenge w)) eqn:H.
  - rewrite generate_challenge_stored by done. apply same_tables_refl.
  - rewrite generate_challenge_fresh by done. repeat split.
Qed.

(** X15. The four ceremony operations never write the database: whether
    they return or raise, the rows, the users and the next primary key are
    what they were, so a completed registration has stored no row.
    [add] writes one row at the end of the table, and touches neither the
    session, nor the entropy source, nor the server. *)
Theorem ceremonies_keep_tables (E : Env) (w : World) :
  (∀ user, same_tables w (begin_registration E user w).2) ∧
  (∀ credential, same_tables w (complete_registration E credential w).2) ∧
  (∀ user, same_tables w (begin_authentication E user w).2) ∧
  (∀ user response, same_tables w (complete_authentication E user response w).2) ∧
  (∀ user n d p,
     let w' := (add user n d p w).2 in
     session w' = session w ∧ server_calls w' = server_calls w ∧
     urandom_pos w' = urandom_pos w ∧ users w' = users w ∧
     ∃ row, authenticators w' = authenticators w ++ [row]).
Proof.
  pose proof (generate_challenge_tables E w) as Hg.
  assert (Hknown : ∀ u response, same_tables w (complete_authentication E (Some u) response w).2).
  { intros u response. rewrite complete_authentication_known.
    destruct (get_credentials_loop E _ _) as [e|credentials]; [apply same_tables_refl|].
    cbv zeta. destruct (authenticate_complete E _ _ _ _); repeat split. }
  split; [|split; [|split; [|split]]].
  - intros user. rewrite begin_registration_run.
    destruct (get_credentials_loop E _ _) as [e|credentials]; [apply same_tables_refl|].
    destruct (new_user_entity E _) as [e|entity]; [apply same_tables_refl|].
    destruct (generate_challenge E w) as [[e|challenge] w1]; [exact Hg|].
    cbv zeta. destruct (register_begin E _ _ _ _ _) as [e|[data state]]; exact Hg.
  - intros credential. rewrite complete_registration_run. cbv zeta.
    destruct (register_complete E _ _ _); repeat split.
  - intros user. rewrite begin_authentication_run.
    destruct (match user with Some _ => _ | None => _ end) as [e|credentials];
      [apply same_tables_refl|].
    destruct (generate_challenge E w) as [[e|challenge] w1]; [exact Hg|].
    cbv zeta. destruct (authenticate_begin E _ _ _ _) as [e|[options state]]; exact Hg.
  - intros [u|] response; [apply Hknown|].
    rewrite complete_authentication_unknown.
    destruct (extract_user_from_response E response w) as [[e|u] w0];
      [apply same_tables_refl|apply Hknown].
  - intros user n d p. simpl. repeat split. eauto.
Qed.

Lemma generate_challenge_with_tables (E : Env) (rows : list Authenticator) (next : N)
    (accounts : list User) (w : World) :
  generate_challenge E (with_tables rows next accounts w) =
    ((generate_challenge E w).1, with_tables rows next accounts (generate_challenge E w).2).
Proof.
  destruct (is_not_None (stored_challenge w)) eqn:H.
  - rewrite (generate_challenge_stored E w) by done.
    rewrite generate_challenge_stored by exact H. reflexivity.
  - rewrite (generate_challenge_fresh E w) by done.
    rewrite generate_challenge_fresh by exact H. reflexivity.
Qed.

(** X17. [begin_authentication] without a user does not read the
    database: with other rows and other users, it returns or raises the
    same, calls the server the same and leaves the same session. A row
    that does not decode, which stops [get_credentials], does not stop
    it. *)
Theorem passwordless_begin_ignores_tables (E : Env) (rows : list Authenticator) (next : N)
    (accounts : list User) (w : World) :
  begin_authentication E None (with_tables rows next accounts w) =
    ((begin_authentication E None w).1,
     with_tables rows next accounts (begin_authentication E None w).2).
Proof.
  rewrite !begin_authentication_run. rewrite generate_challenge_with_tables.
  destruct (generate_challenge E w) as [[e|challenge] w1]; [reflexivity|].
  cbv zeta. simpl. destruct (authenticate_begin E _ _ _ _) as [e|[options state]]; reflexivity.
Qed.
